(** * NPSAT helper functions ([myheaders/helper_functions.h])

    A shallow embedding of the three pieces of numerical and geometric code
    of the header, and of its node-adjacency lookup:

    - [triangle_area] and [recharge_weight] (projected and true face area),
    - [try_mapping] (inverse mapping with a bounded, randomised retry),
    - [get_connected_indices] (vertical neighbours in a quad/hex cell).

    The C++ code computes on [double].  Every function that touches a
    [double] is written once, over an interface [DoubleOps] holding the
    operations the source uses, and read at two instances: IEEE binary64
    (the primitive floats of the kernel, which evaluate), and the exact real
    numbers (the arithmetic the formulas of the documentation are about). *)

From Stdlib Require Import ZArith List Bool Lia Reals Lra Psatz.
From Stdlib Require PrimFloat Uint63 SpecFloat FloatOps FloatAxioms.
From Stdlib Require FMapAVL FMapFacts OrderedTypeEx.
Import ListNotations.

(** ** The arithmetic of [double] *)

Class DoubleOps (num : Type) : Type := {
  dadd  : num -> num -> num;
  dsub  : num -> num -> num;
  dmul  : num -> num -> num;
  ddiv  : num -> num -> num;
  dabs  : num -> num;          (* std::abs *)
  dsqrt : num -> num;          (* sqrt *)
  dconv : Z -> num             (* double(i) for an int i *)
}.

Declare Scope dbl_scope.
Delimit Scope dbl_scope with D.
Infix "+" := dadd : dbl_scope.
Infix "-" := dsub : dbl_scope.
Infix "*" := dmul : dbl_scope.
Infix "/" := ddiv : dbl_scope.

(** A decimal literal [n/d] of the source text ([0.5] is [dlit 1 2],
    [0.0001] is [dlit 1 10000]).  Both instances below give it the value the
    compiler gives the literal: the quotient itself over the reals, the
    nearest binary64 number over the floats (see [dlit_binary64]). *)
Definition dlit {num} `{DoubleOps num} (n d : Z) : num :=
  (dconv n / dconv d)%D.

(** [pow(x, 2)]: the square.  Over binary64 it is taken correctly rounded,
    that is, equal to the product [x * x]. *)
Definition pow2 {num} `{DoubleOps num} (x : num) : num := (x * x)%D.

(** Exact real arithmetic. *)
#[export] Instance exact_ops : DoubleOps R := {|
  dadd := Rplus; dsub := Rminus; dmul := Rmult; ddiv := Rdiv;
  dabs := Rabs; dsqrt := sqrt; dconv := IZR |}.

(** IEEE 754 binary64, round to nearest even. *)
Definition float_of_Z (z : Z) : PrimFloat.float :=
  match z with
  | Z0 => PrimFloat.zero
  | Zpos _ => PrimFloat.of_uint63 (Uint63.of_Z z)
  | Zneg p => PrimFloat.opp (PrimFloat.of_uint63 (Uint63.of_Z (Zpos p)))
  end.

#[export] Instance binary64_ops : DoubleOps PrimFloat.float := {|
  dadd := PrimFloat.add; dsub := PrimFloat.sub; dmul := PrimFloat.mul;
  ddiv := PrimFloat.div; dabs := PrimFloat.abs; dsqrt := PrimFloat.sqrt;
  dconv := float_of_Z |}.

(** ** Outcomes

    [OutOfRange] is a read or write of a coordinate a point does not have
    ([operator[]] of [dealii::Point<dim>] with an index [>= dim]: caught by
    the library's index assertion in debug builds, unchecked otherwise).
    [OutOfFuel] belongs to the model of the [while] loop only. *)

Inductive run (A : Type) : Type :=
| Ret (a : A)
| OutOfRange
| OutOfFuel.
Arguments Ret {A} a.
Arguments OutOfRange {A}.
Arguments OutOfFuel {A}.

Definition bind {A B} (m : run A) (k : A -> run B) : run B :=
  match m with
  | Ret a => k a
  | OutOfRange => OutOfRange
  | OutOfFuel => OutOfFuel
  end.

Notation "x <- m ;; k" := (bind m (fun x => k))
  (at level 61, m at next level, right associativity).
Notation "' p <- m ;; k" := (bind m (fun p => k))
  (at level 61, p pattern, m at next level, right associativity).

(** ** Points *)

Section Geometry.
Context {num : Type} `{DoubleOps num}.
Local Open Scope dbl_scope.

(** [dealii::Point<dim>]: [dim] coordinates. *)
Definition Point : Type := list num.

(** [P[i]] *)
Definition coord (P : Point) (i : nat) : run num :=
  match nth_error P i with
  | Some x => Ret x
  | None => OutOfRange
  end.

(** [P[i] = x] *)
Fixpoint set_coord (P : Point) (i : nat) (x : num) : run Point :=
  match P, i with
  | [], _ => OutOfRange
  | _ :: P', O => Ret (x :: P')
  | y :: P', S i' => P'' <- set_coord P' i' x ;; Ret (y :: P'')
  end.

(** *** [triangle_area] (lines 87-104) *)
Definition triangle_area (A B C : Point) (project : bool) : run num :=
  if project then
    a0 <- coord A 0 ;; a1 <- coord A 1 ;;
    b0 <- coord B 0 ;; b1 <- coord B 1 ;;
    c0 <- coord C 0 ;; c1 <- coord C 1 ;;
    Ret (dabs (dlit 1 2 * (a0 * (b1 - c1) + b0 * (c1 - a1) + c0 * (a1 - b1))))
  else
    x1 <- coord A 0 ;; y1 <- coord A 1 ;; z1 <- coord A 2 ;;
    x2 <- coord B 0 ;; y2 <- coord B 1 ;; z2 <- coord B 2 ;;
    x3 <- coord C 0 ;; y3 <- coord C 1 ;; z3 <- coord C 2 ;;
    let area :=
      pow2 (x1 * y2 - x2 * y1 - x1 * y3 + x3 * y1 + x2 * y3 - x3 * y2) +
      pow2 (x1 * z2 - x2 * z1 - x1 * z3 + x3 * z1 + x2 * z3 - x3 * z2) +
      pow2 (y1 * z2 - y2 * z1 - y1 * z3 + y3 * z1 + y2 * z3 - y3 * z2) in
    Ret (dlit 1 2 * dsqrt area).

(** Modelled from the spec: [Point::distance] belongs to the mesh library
    and is not part of the header; it is the full Euclidean distance
    [|v1 - v2|], the square root of the sum over the axes of the squared
    coordinate differences. *)
Definition distance_square (P Q : Point) : num :=
  fold_left (fun sum pq => sum + pow2 (fst pq - snd pq)) (combine P Q) (dconv 0).

Definition distance (P Q : Point) : num := dsqrt (distance_square P Q).

(** *** [recharge_weight] (lines 115-134)

    [vertex k] stands for [cell->face(face)->vertex(k)]. *)
Definition A_real (v1 v2 v3 v4 : Point) : run num :=
  t1 <- triangle_area v1 v2 v4 false ;;
  t2 <- triangle_area v1 v4 v3 false ;;
  Ret (t1 + t2).

Definition A_proj (v1 v2 v3 v4 : Point) : run num :=
  t1 <- triangle_area v1 v2 v4 true ;;
  t2 <- triangle_area v1 v4 v3 true ;;
  Ret (t1 + t2).

Definition recharge_weight (dim : Z) (vertex : nat -> Point) : run num :=
  let weight := dconv 1 in
  if (dim =? 2)%Z then
    let v1 := vertex 0%nat in
    let v2 := vertex 1%nat in
    let actual_length := distance v1 v2 in
    v2x <- coord v2 0 ;; v1x <- coord v1 0 ;;
    let projected_length := dabs (v2x - v1x) in
    Ret (projected_length / actual_length)
  else if (dim =? 3)%Z then
    let v1 := vertex 0%nat in
    let v2 := vertex 1%nat in
    let v3 := vertex 2%nat in
    let v4 := vertex 3%nat in
    a_real <- A_real v1 v2 v3 v4 ;;
    a_proj <- A_proj v1 v2 v3 v4 ;;
    Ret (a_proj / a_real)
  else Ret weight.

End Geometry.

Arguments Point num : clear implicits.

(** ** The random source

    [rand()] reads and advances a hidden global state.  A generator is
    modelled by the sequence of numbers it is going to return and the
    position reached in it. *)

Record rand_source : Type := {
  draws : nat -> Z;
  pos : nat
}.

Definition rand (g : rand_source) : Z * rand_source :=
  (draws g (pos g), {| draws := draws g; pos := S (pos g) |}).

(** ** [try_mapping] (lines 35-58) *)

Section TryMapping.
Context {num : Type} `{DoubleOps num}.
Local Open Scope dbl_scope.

(** [RAND_MAX] of the C library. *)
Variable RAND_MAX : Z.

(** [mapping.transform_real_to_unit_cell(cell, .)] for the cell and the
    mapping of the call; [None] when it throws. *)
Variable transform_real_to_unit_cell : Point num -> option (Point num).

Variable dim : Z.

(** The [for] loop of the handler, with [n] iterations left. *)
Fixpoint perturb_loop (n idim : nat) (p p_try : Point num) (g : rand_source)
  : run (Point num * rand_source) :=
  match n with
  | O => Ret (p_try, g)
  | S n' =>
      pi <- coord p idim ;;
      let (r, g') := rand g in
      p_try' <- set_coord p_try idim
        (pi + dlit 1 10000 * (dconv (-1) + dconv 2 * (dconv r / dconv RAND_MAX))) ;;
      perturb_loop n' (S idim) p p_try' g'
  end.

(** The local variables, the output parameter [p_unit], the generator, and
    a log of the points handed to the mapping (not in the source: it is
    what the claims about attempts are stated on). *)
Record try_state : Type := {
  mapping_done : bool;
  count_try : Z;
  p_try : Point num;
  p_unit : Point num;
  gen : rand_source;
  queried : list (Point num)
}.

(** One turn of the [while] body; the boolean is [true] on [break]. *)
Definition attempt (p : Point num) (s : try_state) : run (try_state * bool) :=
  match transform_real_to_unit_cell (p_try s) with
  | Some q =>
      Ret ({| mapping_done := true;
              count_try := count_try s;
              p_try := p_try s;
              p_unit := q;
              gen := gen s;
              queried := queried s ++ [p_try s] |}, false)
  | None =>
      ' (p_try', g') <- perturb_loop (Z.to_nat dim) 0 p (p_try s) (gen s) ;;
      let count_try' := (count_try s + 1)%Z in
      Ret ({| mapping_done := mapping_done s;
              count_try := count_try';
              p_try := p_try';
              p_unit := p_unit s;
              gen := g';
              queried := queried s ++ [p_try s] |}, (20 <? count_try')%Z)
  end.

(** [while (!mapping_done) { ... }] *)
Fixpoint while_not_done (fuel : nat) (p : Point num) (s : try_state)
  : run try_state :=
  if mapping_done s then Ret s
  else match fuel with
       | O => OutOfFuel
       | S fuel' =>
           ' (s', brk) <- attempt p s ;;
           if brk : bool then Ret s' else while_not_done fuel' p s'
       end.

(** The state in which [return mapping_done] is reached. *)
Definition try_mapping (fuel : nat) (p p_unit0 : Point num) (g : rand_source)
  : run try_state :=
  while_not_done fuel p
    {| mapping_done := false; count_try := 0; p_try := p;
       p_unit := p_unit0; gen := g; queried := [] |}.

End TryMapping.

(** ** [get_connected_indices] (lines 144-233) *)

Definition push_back (out : list Z) (x : Z) : list Z := out ++ [x].

Local Open Scope Z_scope.

(** The body of the function, for either value of its local flag. *)
Definition connected_indices (return_all : bool) (dim ii : Z) : list Z :=
  let out := [] in
  if dim =? 2 then
    if return_all then
      if ii =? 0 then push_back (push_back out 1) 2
      else if ii =? 1 then push_back (push_back out 0) 3
      else if ii =? 2 then push_back (push_back out 0) 3
      else if ii =? 3 then push_back (push_back out 1) 2
      else out
    else
      if ii =? 0 then push_back out 2
      else if ii =? 1 then push_back out 3
      else if ii =? 2 then push_back out 0
      else if ii =? 3 then push_back out 1
      else out
  else if dim =? 3 then
    if return_all then
      if ii =? 0 then push_back (push_back (push_back out 1) 2) 4
      else if ii =? 1 then push_back (push_back (push_back out 0) 3) 5
      else if ii =? 2 then push_back (push_back (push_back out 0) 3) 6
      else if ii =? 3 then push_back (push_back (push_back out 1) 2) 7
      else if ii =? 4 then push_back (push_back (push_back out 0) 5) 6
      else if ii =? 5 then push_back (push_back (push_back out 1) 4) 7
      else if ii =? 6 then push_back (push_back (push_back out 2) 4) 7
      else if ii =? 7 then push_back (push_back (push_back out 3) 5) 6
      else out
    else
      if ii =? 0 then push_back out 4
      else if ii =? 1 then push_back out 5
      else if ii =? 2 then push_back out 6
      else if ii =? 3 then push_back out 7
      else if ii =? 4 then push_back out 0
      else if ii =? 5 then push_back out 1
      else if ii =? 6 then push_back out 2
      else if ii =? 7 then push_back out 3
      else out
  else out.

Definition get_connected_indices (dim ii : Z) : list Z :=
  let return_all := false in
  connected_indices return_all dim ii.

(** A local node index the reference cell of dimension [dim] has. *)
Definition valid_node (dim ii : Z) : bool :=
  ((dim =? 2) || (dim =? 3)) && (0 <=? ii) && (ii <=? 2 ^ dim - 1).

Local Close Scope Z_scope.

(** ** Outcomes the documentation names

    The header raises no error of its own: its functions return a value on
    every path.  The documentation speaks of error outcomes; the two
    definitions below word its sentences, so that they can be compared with
    what the code returns. *)

Inductive error : Type := InvalidDimension | InvalidIndex.

Inductive outcome (A : Type) : Type :=
| Returns (a : A)
| Fails (e : error).
Arguments Returns {A} a.
Arguments Fails {A} e.

(** "Fails with InvalidIndex for indices outside [0, 2^dim-1] or dimension
    outside {2,3}." *)
Definition documented_get_connected_indices (dim ii : Z) : outcome (list Z) :=
  if valid_node dim ii then Returns (get_connected_indices dim ii)
  else Fails InvalidIndex.

(** "Fails with InvalidDimension if project is false and dim <> 3." *)
Definition documented_triangle_area {num} `{DoubleOps num}
    (dim : nat) (A B C : Point num) (project : bool) : outcome (run num) :=
  if negb project && negb (dim =? 3)%nat then Fails InvalidDimension
  else Returns (triangle_area A B C project).

(** The neighbour of node [ii] along the last axis of the reference cell:
    the node numbers of a cell are binary, the last axis is the top bit. *)
Definition vertical_neighbour (dim ii : Z) : Z :=
  (if ii <? 2 ^ (dim - 1) then ii + 2 ^ (dim - 1) else ii - 2 ^ (dim - 1))%Z.

(** ** The attempts of [try_mapping], in closed form

    The definitions of this section are not in the source: they name the
    points the loop hands to the mapping and the states it goes through, for
    the statements below. *)

Section Attempts.
Context {num : Type} `{DoubleOps num}.
Local Open Scope dbl_scope.

Variable RAND_MAX : Z.
Variable dim : Z.

(** The fraction [double(rand())/double(RAND_MAX)] for a drawn number. *)
Definition fraction (r : Z) : num := dconv r / dconv RAND_MAX.

(** What the handler adds to a coordinate, for a drawn number. *)
Definition offset (r : Z) : num :=
  dlit 1 10000 * (dconv (-1) + dconv 2 * fraction r).

(** [p] with the draws number [k], [k+1], ... used for its axes in turn. *)
Fixpoint perturbed (draw : nat -> Z) (k : nat) (p : Point num) : Point num :=
  match p with
  | [] => []
  | x :: p' => (x + offset (draw k)) :: perturbed draw (S k) p'
  end.

(** The generator after [n] calls of [rand]. *)
Definition advance (g : rand_source) (n : nat) : rand_source :=
  {| draws := draws g; pos := pos g + n |}.

(** The point of attempt number [j], counted from 0. *)
Definition query (p : Point num) (g : rand_source) (j : nat) : Point num :=
  match j with
  | O => p
  | S j' => perturbed (draws g) (pos g + j' * Z.to_nat dim) p
  end.

(** The state at the head of the loop after [k] failed attempts. *)
Definition state_after (p p_unit0 : Point num) (g : rand_source) (k : nat)
  : try_state :=
  {| mapping_done := false;
     count_try := Z.of_nat k;
     p_try := query p g k;
     p_unit := p_unit0;
     gen := advance g (k * Z.to_nat dim);
     queried := map (query p g) (seq 0 k) |}.

(** The state [try_mapping] returns in when attempt [k] is the first to
    succeed, with result [q]. *)
Definition state_found (p : Point num) (g : rand_source) (k : nat)
    (q : Point num) : try_state :=
  {| mapping_done := true;
     count_try := Z.of_nat k;
     p_try := query p g k;
     p_unit := q;
     gen := advance g (k * Z.to_nat dim);
     queried := map (query p g) (seq 0 (S k)) |}.

End Attempts.

(** The position, in the generator's sequence counted from the call, of the
    draw used for axis [i] of retry number [k] (the attempt after [k]
    failures, [k >= 1]). *)
Definition draw_index (dim : Z) (k i : nat) : nat :=
  ((k - 1) * Z.to_nat dim + i)%nat.

(** ** Sample inputs *)

(** A generator that alternates between the two ends of its range, for a C
    library with [RAND_MAX = 32767]. *)
Definition two_ends : rand_source :=
  {| draws := fun n => if Nat.even n then 0%Z else 32767%Z; pos := 0 |}.

(** A generator whose first number is [RAND_MAX = 2147483647] ([rand()]
    returns a number between 0 and [RAND_MAX], both included). *)
Definition top_end : rand_source :=
  {| draws := fun n => match n with
                       | O => 2147483647%Z
                       | S n' => Z.of_nat n'
                       end;
     pos := 0 |}.

(** A mapping whose inversion always throws. *)
Definition never_inverts {num} (q : Point num) : option (Point num) := None.

(** A mapping whose inversion throws at the points whose first coordinate
    is [x0], and gives back the point it is handed everywhere else. *)
Definition inverts_off (x0 : R) (q : Point R) : option (Point R) :=
  match q with
  | x :: _ => if Req_dec_T x x0 then None else Some q
  | [] => None
  end.

(** The face whose vertices are the points of [vs], in order. *)
Definition face_of {num} (vs : list (Point num)) : nat -> Point num :=
  fun k => nth k vs [].

(** Binary64 numbers with one decimal, [n/10] rounded. *)
Definition tenths (n : Z) : PrimFloat.float := dlit n 10.

(** Binary64 numbers with three decimals, [n/1000] rounded. *)
Definition thousandths (n : Z) : PrimFloat.float := dlit n 1000.

(** The 2x2 minor the source writes out three times, once per pair of
    axes: twice the signed area of the triangle in the plane of the pair. *)
Definition minor_xy (x1 y1 x2 y2 x3 y3 : R) : R :=
  (x1 * y2 - x2 * y1 - x1 * y3 + x3 * y1 + x2 * y3 - x3 * y2)%R.

(** ** [linspace] (lines 23-33) *)

(** [floor] of <math.h>, beside the operations of [DoubleOps]. *)
Class DoubleFloor (num : Type) : Type := {
  dfloor : num -> num
}.

(** Over the reals: the largest integer not above [x]. *)
#[export] Instance exact_floor : DoubleFloor R := {|
  dfloor := fun x => IZR (Int_part x) |}.

(** Over binary64.  Below 2^52 in magnitude, adding and taking away 2^52
    rounds to an integer, which is lowered by one if it came out above [x];
    from 2^52 on every number is an integer; zeros, infinities and NaN are
    returned as they are. *)
Definition float_floor (x : PrimFloat.float) : PrimFloat.float :=
  let two52 := float_of_Z 4503599627370496 in
  if PrimFloat.ltb (PrimFloat.abs x) two52 then
    if PrimFloat.eqb x PrimFloat.zero then x
    else
      let r := if PrimFloat.ltb x PrimFloat.zero
               then PrimFloat.add (PrimFloat.sub x two52) two52
               else PrimFloat.sub (PrimFloat.add x two52) two52 in
      if PrimFloat.ltb x r then PrimFloat.sub r (float_of_Z 1) else r
  else x.

#[export] Instance binary64_floor : DoubleFloor PrimFloat.float := {|
  dfloor := float_floor |}.

(** [result.insert(result.begin() + iterator, x)], for an [iterator] within
    the vector (the source inserts at its end only). *)
Definition insert_at {A : Type} (l : list A) (iterator : Z) (x : A) : list A :=
  firstn (Z.to_nat iterator) l ++ x :: skipn (Z.to_nat iterator) l.

Section Linspace.
Context {num : Type} `{DoubleOps num} `{DoubleFloor num}.
Local Open Scope dbl_scope.

(** The two local variables the loop changes. *)
Record linspace_state : Type := {
  result : list num;
  iterator : Z
}.

(** The body of the [for] loop, at index [i]. *)
Definition linspace_body (min max : num) (n i : Z) (s : linspace_state)
  : linspace_state :=
  let temp := min + dconv i * (max - min) / (dfloor (dconv n) - dconv 1) in
  {| result := insert_at (result s) (iterator s) temp;
     iterator := (iterator s + 1)%Z |}.

(** [for (int i = 0; i <= n-2; i++) { ... }], entered at index [i]. *)
Fixpoint linspace_loop (fuel : nat) (min max : num) (n i : Z)
    (s : linspace_state) : run linspace_state :=
  if (i <=? n - 2)%Z then
    match fuel with
    | O => OutOfFuel
    | S fuel' =>
        linspace_loop fuel' min max n (i + 1)%Z (linspace_body min max n i s)
    end
  else Ret s.

Definition linspace (fuel : nat) (min max : num) (n : Z) : run (list num) :=
  s <- linspace_loop fuel min max n 0%Z {| result := []; iterator := 0%Z |} ;;
  Ret (insert_at (result s) (iterator s) max).

(** The number the loop computes at index [i]. *)
Definition linspace_temp (min max : num) (n i : Z) : num :=
  min + dconv i * (max - min) / (dfloor (dconv n) - dconv 1).

End Linspace.

(** The [k] integers from [a] on. *)
Fixpoint int_range (a : Z) (k : nat) : list Z :=
  match k with
  | O => []
  | S k' => a :: int_range (a + 1) k'
  end.

(** The values of [int] for which [n - 2] does not overflow. *)
Definition int_minus_2_fits (n : Z) : Prop :=
  (- 2147483646 <= n <= 2147483647)%Z.

(** ** [Print_Mesh_DofHandler] (lines 235-282)

    The function walks the active cells of the mesh and collects, for the
    cells owned by the process, the support points of the mesh element in a
    map keyed by the degree of freedom of their last coordinate.  It
    returns nothing and writes nothing ([filename], [my_rank], [Mesh] and
    [m_cnt] are not used): the model returns the two locals it fills,
    [Points] and [p_cnt], as they are when the function ends. *)

(** [std::map<int, ...>] *)
Module ZMap := FMapAVL.Make OrderedTypeEx.Z_as_OT.
Module ZMapFacts := FMapFacts.WFacts_fun OrderedTypeEx.Z_as_OT ZMap.
Module ZMapProps := FMapFacts.WProperties_fun OrderedTypeEx.Z_as_OT ZMap.

(** [v[i]] and [v[i] = x] for a [std::vector]. *)
Definition vec_get {A : Type} (v : list A) (i : nat) : run A :=
  match nth_error v i with
  | Some x => Ret x
  | None => OutOfRange
  end.

Fixpoint vec_set {A : Type} (v : list A) (i : nat) (x : A) : run (list A) :=
  match v, i with
  | [], _ => OutOfRange
  | _ :: v', O => Ret (x :: v')
  | y :: v', S i' => v'' <- vec_set v' i' x ;; Ret (y :: v'')
  end.

(** [static_cast<int>(u)] for an [unsigned int] [u]: the number of the same
    32 bits. *)
Definition to_int (u : Z) : Z := ((u + 2 ^ 31) mod 2 ^ 32 - 2 ^ 31)%Z.

Section PrintMesh.
Context {num : Type} `{DoubleOps num}.

(** What the function reads of one active cell: whether it is locally
    owned, the numbers [get_dof_indices] writes to [cell_dof_indices], and
    the points [fe_mesh_points.quadrature_point(idof)] after
    [reinit(cell)]. *)
Record cell_data : Type := {
  is_locally_owned : bool;
  get_dof_indices : list Z;
  quadrature_point : nat -> Point num
}.

Variable dim : nat.

(** [mesh_fe.base_element(0).dofs_per_cell] and
    [mesh_fe.component_to_system_index]. *)
Variable base_dofs_per_cell : nat.
Variable component_to_system_index : nat -> nat -> nat.

Record print_state : Type := {
  Points : ZMap.t (Z * Point num);
  p_cnt : Z
}.

(** The loop over [dir], with [n] turns to go. *)
Fixpoint dir_loop (n dir : nat) (cell : cell_data) (idof : nat)
    (current_dofs : list Z) (current_node : Point num)
  : run (list Z * Point num) :=
  match n with
  | O => Ret (current_dofs, current_node)
  | S n' =>
      let support_point_index := component_to_system_index dir idof in
      u <- vec_get (get_dof_indices cell) support_point_index ;;
      current_dofs' <- vec_set current_dofs dir (to_int u) ;;
      x <- coord (quadrature_point cell idof) dir ;;
      current_node' <- set_coord current_node dir x ;;
      dir_loop n' (S dir) cell idof current_dofs' current_node'
  end.

(** The body of the loop over [idof]. *)
Definition visit_idof (cell : cell_data) (idof : nat) (s : print_state)
  : run print_state :=
  ' (current_dofs, current_node) <-
      dir_loop dim 0 cell idof (repeat 0%Z dim) (repeat (dconv 0) dim) ;;
  key <- vec_get current_dofs (dim - 1) ;;
  match ZMap.find key (Points s) with
  | None =>
      Ret {| Points := ZMap.add key (p_cnt s, current_node) (Points s);
             p_cnt := (p_cnt s + 1)%Z |}
  | Some _ => Ret s
  end.

Fixpoint idof_loop (n idof : nat) (cell : cell_data) (s : print_state)
  : run print_state :=
  match n with
  | O => Ret s
  | S n' => s' <- visit_idof cell idof s ;; idof_loop n' (S idof) cell s'
  end.

(** The body of the loop over the cells. *)
Definition visit_cell (cell : cell_data) (s : print_state) : run print_state :=
  if is_locally_owned cell then idof_loop base_dofs_per_cell 0 cell s
  else Ret s.

Fixpoint cell_loop (cells : list cell_data) (s : print_state) : run print_state :=
  match cells with
  | [] => Ret s
  | cell :: cells' => s' <- visit_cell cell s ;; cell_loop cells' s'
  end.

(** The cells are those from [begin_active()] to [end()], in order. *)
Definition Print_Mesh_DofHandler (cells : list cell_data) : run print_state :=
  cell_loop cells {| Points := ZMap.empty (Z * Point num); p_cnt := 0%Z |}.

(** *** The visits, in closed form (not in the source) *)

(** The key and the point of the visit of [idof] in a cell. *)
Definition visit_key (cell : cell_data) (idof : nat) : Z :=
  to_int (nth (component_to_system_index (dim - 1) idof) (get_dof_indices cell) 0%Z).

Definition visits_of_cell (cell : cell_data) : list (Z * Point num) :=
  map (fun idof => (visit_key cell idof, quadrature_point cell idof))
      (seq 0 base_dofs_per_cell).

(** All visits of a run, in the order the loops make them. *)
Definition visits (cells : list cell_data) : list (Z * Point num) :=
  flat_map visits_of_cell (filter is_locally_owned cells).

(** The cell gives the loops what they read: every index
    [component_to_system_index] returns is within [cell_dof_indices], and
    the points have [dim] coordinates. *)
Definition readable (cell : cell_data) : Prop :=
  forall idof, (idof < base_dofs_per_cell)%nat ->
    length (quadrature_point cell idof) = dim /\
    forall dir, (dir < dim)%nat ->
      (component_to_system_index dir idof < length (get_dof_indices cell))%nat.

(** What one visit does to the two locals. *)
Definition record_visit (s : print_state) (v : Z * Point num) : print_state :=
  match ZMap.find (fst v) (Points s) with
  | None =>
      {| Points := ZMap.add (fst v) (p_cnt s, snd v) (Points s);
         p_cnt := (p_cnt s + 1)%Z |}
  | Some _ => s
  end.

(** What the map and the counter hold once the visits of [kept] have been
    recorded, each with its position in [kept] for counter. *)
Definition holds (s : print_state) (kept : list (Z * Point num)) : Prop :=
  p_cnt s = Z.of_nat (length kept) /\
  ZMap.cardinal (Points s) = length kept /\
  forall k c nd,
    ZMap.find k (Points s) = Some (c, nd) <->
    (0 <= c)%Z /\ nth_error kept (Z.to_nat c) = Some (k, nd).

End PrintMesh.

(** A visit is kept if its key has not been seen. *)
Definition keep_first {P : Type} (kept : list (Z * P)) (v : Z * P) : list (Z * P) :=
  if existsb (Z.eqb (fst v)) (map fst kept) then kept else kept ++ [v].

(** The first visit of every key, in the order of the visits. *)
Definition first_visits {P : Type} (vs : list (Z * P)) : list (Z * P) :=
  fold_left keep_first vs [].

(** Two quadrilateral cells side by side and a third that another process
    owns; each node has one degree of freedom per axis, numbered
    [2 * node + axis] within the cell. *)
Definition sample_index (dir idof : nat) : nat := (idof * 2 + dir)%nat.

Definition left_cell : cell_data (num := PrimFloat.float) :=
  {| is_locally_owned := true;
     get_dof_indices := [0; 1; 2; 3; 4; 5; 6; 7]%Z;
     quadrature_point := fun idof =>
       nth idof [[dconv 0; dconv 0]; [dconv 1; dconv 0];
                 [dconv 0; dconv 1]; [dconv 1; dconv 1]] [] |}.

Definition right_cell : cell_data (num := PrimFloat.float) :=
  {| is_locally_owned := true;
     get_dof_indices := [2; 3; 8; 9; 6; 7; 10; 11]%Z;
     quadrature_point := fun idof =>
       nth idof [[dconv 1; dconv 0]; [dconv 2; dconv 0];
                 [dconv 1; dconv 1]; [dconv 2; dconv 1]] [] |}.

Definition ghost_cell : cell_data (num := PrimFloat.float) :=
  {| is_locally_owned := false;
     get_dof_indices := [8; 9; 12; 13; 10; 11; 14; 15]%Z;
     quadrature_point := fun idof =>
       nth idof [[dconv 2; dconv 0]; [dconv 3; dconv 0];
                 [dconv 2; dconv 1]; [dconv 3; dconv 1]] [] |}.

(** Reading the operations of [DoubleOps] at the exact instance. *)
Ltac to_real :=
  unfold dlit, pow2 in *;
  cbn [dadd dsub dmul ddiv dabs dsqrt dconv exact_ops] in *.

(** * Properties of [get_connected_indices] *)

Section Adjacency.
Local Open Scope Z_scope.

Ltac split_index ii :=
  repeat match goal with
         | |- context [ii =? ?k] => destruct (Z.eqb_spec ii k); [subst ii |]
         end.

Lemma valid_node_iff dim ii :
  valid_node dim ii = true <->
  (dim = 2 /\ (ii = 0 \/ ii = 1 \/ ii = 2 \/ ii = 3)) \/
  (dim = 3 /\ (ii = 0 \/ ii = 1 \/ ii = 2 \/ ii = 3 \/
               ii = 4 \/ ii = 5 \/ ii = 6 \/ ii = 7)).
Proof.
  unfold valid_node.
  rewrite !andb_true_iff, orb_true_iff, !Z.eqb_eq, !Z.leb_le.
  split.
  - intros [[[-> | ->] Hlo] Hhi]; [left | right]; split; trivial;
      change (2 ^ 2) with 4 in Hhi; change (2 ^ 3) with 8 in Hhi; lia.
  - intros [[-> Hi] | [-> Hi]];
      change (2 ^ 2) with 4; change (2 ^ 3) with 8; lia.
Qed.

Lemma lookup_valid dim ii :
  valid_node dim ii = true ->
  get_connected_indices dim ii = [vertical_neighbour dim ii].
Proof.
  intros Hv. apply valid_node_iff in Hv.
  destruct Hv as [[-> Hi] | [-> Hi]];
    repeat (destruct Hi as [-> | Hi]); try subst ii; reflexivity.
Qed.

Lemma lookup_invalid dim ii :
  valid_node dim ii = false -> get_connected_indices dim ii = [].
Proof.
  intros Hv.
  assert (Hn : ~ valid_node dim ii = true) by (rewrite Hv; discriminate).
  rewrite valid_node_iff in Hn.
  unfold get_connected_indices, connected_indices.
  destruct (Z.eqb_spec dim 2) as [-> | H2].
  - split_index ii; trivial; exfalso; apply Hn; left; lia.
  - destruct (Z.eqb_spec dim 3) as [-> | H3]; trivial.
    split_index ii; trivial; exfalso; apply Hn; right; lia.
Qed.

Lemma full_mode_length dim ii :
  valid_node dim ii = true ->
  length (connected_indices true dim ii) = Z.to_nat dim.
Proof.
  intros Hv. apply valid_node_iff in Hv.
  destruct Hv as [[-> Hi] | [-> Hi]];
    repeat (destruct Hi as [-> | Hi]); try subst ii; reflexivity.
Qed.

(** C8: the lookup along the vertical axis is an involution: for [dim] 2 or
    3 and a node [i] of the cell, the lookup of [i] gives one node [j], a
    node of the cell again, and the lookup of [j] gives [i] back. *)
Theorem primary_axis_involution (dim i : Z) :
  dim = 2 \/ dim = 3 ->
  0 <= i <= 2 ^ dim - 1 ->
  exists j,
    get_connected_indices dim i = [j] /\
    0 <= j <= 2 ^ dim - 1 /\
    get_connected_indices dim j = [i].
Proof.
  intros Hd Hi.
  exists (vertical_neighbour dim i).
  destruct Hd as [-> | ->].
  - change (2 ^ 2 - 1) with 3 in *.
    assert (H : i = 0 \/ i = 1 \/ i = 2 \/ i = 3) by lia.
    repeat (destruct H as [-> | H]); try subst i;
      (vm_compute; repeat split; congruence).
  - change (2 ^ 3 - 1) with 7 in *.
    assert (H : i = 0 \/ i = 1 \/ i = 2 \/ i = 3 \/
                i = 4 \/ i = 5 \/ i = 6 \/ i = 7) by lia.
    repeat (destruct H as [-> | H]); try subst i;
      (vm_compute; repeat split; congruence).
Qed.

Lemma primary_axis_involution_witness :
  exists j,
    get_connected_indices 3 5 = [j] /\
    0 <= j <= 2 ^ 3 - 1 /\
    get_connected_indices 3 j = [5].
Proof.
  apply (primary_axis_involution 3 5); [right; reflexivity | simpl; lia].
Defined.

(** C9, as stated, fails: node 4 of a quadrilateral (nodes 0..3) is out of
    range, and the lookup returns the empty list where the documentation
    has an InvalidIndex failure. *)
Lemma invalid_index_not_signalled :
  valid_node 2 4 = false /\
  get_connected_indices 2 4 = [] /\
  documented_get_connected_indices 2 4 <> Returns (get_connected_indices 2 4).
Proof.
  repeat split; discriminate.
Qed.

(** C9, amended: for a node index outside [0, 2^dim-1] or a dimension other
    than 2 and 3 the lookup signals nothing; it returns normally, with the
    empty list. *)
Theorem invalid_lookup_returns_empty (dim ii : Z) :
  ~ (dim = 2 \/ dim = 3) \/ ii < 0 \/ 2 ^ dim - 1 < ii ->
  get_connected_indices dim ii = [].
Proof.
  intros Hbad. apply lookup_invalid.
  destruct (valid_node dim ii) eqn:Hv; trivial.
  exfalso. apply valid_node_iff in Hv.
  destruct Hv as [[-> Hi] | [-> Hi]];
    change (2 ^ 2 - 1) with 3 in *; change (2 ^ 3 - 1) with 7 in *; lia.
Qed.

Lemma invalid_lookup_returns_empty_witness :
  get_connected_indices 3 8 = [] /\ get_connected_indices 4 0 = [].
Proof.
  split.
  - apply (invalid_lookup_returns_empty 3 8). right; right. simpl. lia.
  - apply (invalid_lookup_returns_empty 4 0). left. lia.
Defined.

(** C10: for [dim] 2 or 3 and a node of the cell the lookup returns exactly
    one index, the neighbour along the vertical axis; for every other
    dimension and index it returns the empty list.  The flag that selects
    the full adjacency is a local constant [false]: the function is the
    [false] branch of its body for every input, and on the nodes of a cell
    the other branch (with [dim] neighbours per node) differs from it. *)
Theorem single_neighbour_or_empty (dim ii : Z) :
  get_connected_indices dim ii =
    (if valid_node dim ii then [vertical_neighbour dim ii] else []) /\
  get_connected_indices dim ii = connected_indices false dim ii /\
  length (get_connected_indices dim ii) = (if valid_node dim ii then 1 else 0)%nat /\
  (if valid_node dim ii
   then length (connected_indices true dim ii) = Z.to_nat dim /\
        connected_indices true dim ii <> get_connected_indices dim ii
   else connected_indices true dim ii = []).
Proof.
  destruct (valid_node dim ii) eqn:Hv.
  - pose proof (lookup_valid _ _ Hv) as Hl.
    pose proof (full_mode_length _ _ Hv) as Hf.
    split; [exact Hl |]. split; [reflexivity |].
    split; [rewrite Hl; reflexivity |]. split; [exact Hf |].
    intros Heq. rewrite Heq, Hl in Hf. simpl in Hf.
    apply valid_node_iff in Hv. destruct Hv as [[-> _] | [-> _]]; discriminate.
  - pose proof (lookup_invalid _ _ Hv) as Hl.
    split; [exact Hl |]. split; [reflexivity |].
    split; [rewrite Hl; reflexivity |].
    assert (Hn : ~ valid_node dim ii = true) by (rewrite Hv; discriminate).
    rewrite valid_node_iff in Hn.
    unfold connected_indices.
    destruct (Z.eqb_spec dim 2) as [-> | H2].
    + split_index ii; trivial; exfalso; apply Hn; left; lia.
    + destruct (Z.eqb_spec dim 3) as [-> | H3]; trivial.
      split_index ii; trivial; exfalso; apply Hn; right; lia.
Qed.

End Adjacency.

(** * Properties of [try_mapping] *)

Section TryMappingFacts.
Context {num : Type} `{DoubleOps num}.

Variable RAND_MAX : Z.
Variable transform_real_to_unit_cell : Point num -> option (Point num).
Variable dim : Z.

Local Abbreviation perturb_loop := (perturb_loop RAND_MAX).
Local Abbreviation attempt := (attempt RAND_MAX transform_real_to_unit_cell dim).
Local Abbreviation while_not_done := (while_not_done RAND_MAX transform_real_to_unit_cell dim).
Local Abbreviation try_mapping := (try_mapping RAND_MAX transform_real_to_unit_cell dim).
Local Abbreviation query := (query RAND_MAX dim).
Local Abbreviation state_after := (state_after RAND_MAX dim).
Local Abbreviation state_found := (state_found RAND_MAX dim).
Local Abbreviation perturbed := (perturbed RAND_MAX).

Lemma coord_app (P1 P2 : Point num) (y : num) :
  coord (P1 ++ y :: P2) (length P1) = Ret y.
Proof.
  unfold coord. rewrite nth_error_app2 by lia.
  rewrite Nat.sub_diag. reflexivity.
Qed.

Lemma set_coord_app (P1 P2 : Point num) (y x : num) :
  set_coord (P1 ++ y :: P2) (length P1) x = Ret (P1 ++ x :: P2).
Proof.
  induction P1 as [| z P1 IH]; simpl; trivial.
  rewrite IH. reflexivity.
Qed.

Lemma perturbed_length draw k (p : Point num) :
  length (perturbed draw k p) = length p.
Proof.
  revert k. induction p as [| x p IH]; intros k; simpl; auto.
Qed.

Lemma advance_0 g : advance g 0 = g.
Proof. destruct g. unfold advance. simpl. rewrite Nat.add_0_r. reflexivity. Qed.

Lemma advance_advance g m n : advance (advance g m) n = advance g (m + n).
Proof. unfold advance. simpl. rewrite Nat.add_assoc. reflexivity. Qed.

Lemma rand_advance g : rand g = (draws g (pos g), advance g 1).
Proof. unfold rand, advance. rewrite Nat.add_1_r. reflexivity. Qed.

(** The [for] loop, started at axis [length done] with the axes before it
    written already, rewrites the remaining axes from those of [p]. *)
Lemma perturb_loop_from (rest : Point num) :
  forall (pre done old : Point num) (g : rand_source),
    length pre = length done ->
    length old = length rest ->
    perturb_loop (length rest) (length done) (pre ++ rest) (done ++ old) g =
      Ret (done ++ perturbed (draws g) (pos g) rest, advance g (length rest)).
Proof.
  induction rest as [| x rest IH]; intros pre done old g Hpre Hold.
  - destruct old; [| discriminate]. simpl. rewrite advance_0. reflexivity.
  - destruct old as [| o old]; [discriminate |].
    injection Hold as Hold.
    cbn [length perturb_loop].
    rewrite <- Hpre, coord_app. cbn [bind].
    rewrite rand_advance.
    rewrite Hpre, set_coord_app. cbn [bind].
    specialize (IH (pre ++ [x]) (done ++ [x + offset RAND_MAX (draws g (pos g))])%D
                   old (advance g 1)).
    rewrite !length_app in IH. cbn [length] in IH.
    rewrite !Nat.add_1_r, <- !app_assoc in IH. cbn [app] in IH.
    unfold offset, fraction in IH.
    rewrite IH by (trivial; congruence).
    rewrite advance_advance. cbn [perturbed advance pos draws].
    rewrite Nat.add_1_r. reflexivity.
Qed.

Lemma perturb_loop_all (p old : Point num) (g : rand_source) :
  length old = length p ->
  perturb_loop (length p) 0 p old g =
    Ret (perturbed (draws g) (pos g) p, advance g (length p)).
Proof.
  intros Hlen. exact (perturb_loop_from p [] [] old g eq_refl Hlen).
Qed.

Lemma query_length p g j : length (query p g j) = length p.
Proof. destruct j; simpl; trivial. apply perturbed_length. Qed.

Section Loop.
Variables (p p_unit0 : Point num) (g : rand_source).
Hypothesis p_dim : length p = Z.to_nat dim.

(** A failed attempt leads from one loop-head state to the next. *)
Lemma attempt_fails k :
  transform_real_to_unit_cell (query p g k) = None ->
  attempt p (state_after p p_unit0 g k) =
    Ret (state_after p p_unit0 g (S k), (20 <? Z.of_nat (S k))%Z).
Proof.
  intros Hf. unfold attempt, state_after.
  cbn [p_try gen count_try mapping_done p_unit queried].
  rewrite Hf, <- p_dim.
  rewrite perturb_loop_all by apply query_length.
  cbn [bind].
  rewrite advance_advance, seq_S, map_app, Nat2Z.inj_succ.
  cbn [map Nat.add query advance pos draws Nat.mul].
  rewrite <- p_dim, (Nat.add_comm (length p) (k * length p)).
  unfold Z.succ. reflexivity.
Qed.

Lemma attempt_succeeds k q :
  transform_real_to_unit_cell (query p g k) = Some q ->
  attempt p (state_after p p_unit0 g k) = Ret (state_found p g k q, false).
Proof.
  intros Hs. unfold attempt. cbn [p_try state_after]. rewrite Hs.
  unfold state_found. cbn [count_try gen queried].
  rewrite seq_S, map_app. reflexivity.
Qed.

(** The run of the loop from the state after [k] failures: it returns,
    after the attempts [k .. n-1], either in the state of a success at
    attempt [n-1], or, all of the attempts up to number 20 having
    failed, in the state after 21 failures. *)
Lemma loop_from (d : nat) :
  forall k fuel,
    (k + d = 20)%nat -> (d < fuel)%nat ->
    exists n,
      (k < n <= 21)%nat /\
      (forall j, (k <= j)%nat -> (S j < n)%nat ->
                 transform_real_to_unit_cell (query p g j) = None) /\
      ((exists q,
          transform_real_to_unit_cell (query p g (pred n)) = Some q /\
          while_not_done fuel p (state_after p p_unit0 g k) =
            Ret (state_found p g (pred n) q)) \/
       (n = 21%nat /\
        transform_real_to_unit_cell (query p g 20) = None /\
        while_not_done fuel p (state_after p p_unit0 g k) =
          Ret (state_after p p_unit0 g 21))).
Proof.
  induction d as [| d IH]; intros k fuel Hk Hfuel.
  - assert (k = 20%nat) by lia. subst k.
    destruct fuel as [| fuel]; [lia |].
    exists 21%nat. split; [lia |]. split; [intros; lia |].
    cbn [while_not_done mapping_done state_after].
    destruct (transform_real_to_unit_cell (query p g 20)) as [q |] eqn:Hq.
    + left. exists q. split; [exact Hq |].
      rewrite (attempt_succeeds 20 q Hq). cbn [bind].
      destruct fuel; reflexivity.
    + right. split; [reflexivity |]. split; [reflexivity |].
      rewrite (attempt_fails 20 Hq). reflexivity.
  - destruct fuel as [| fuel]; [lia |].
    cbn [while_not_done mapping_done state_after].
    destruct (transform_real_to_unit_cell (query p g k)) as [q |] eqn:Hq.
    + exists (S k). split; [lia |]. split; [intros; lia |].
      left. exists q. split; [exact Hq |].
      rewrite (attempt_succeeds k q Hq). cbn [bind].
      destruct fuel; reflexivity.
    + destruct (IH (S k) fuel) as (n & Hn & Hnone & Hend); [lia | lia |].
      exists n. split; [lia |]. split.
      * intros j Hj1 Hj2.
        destruct (Nat.eq_dec j k) as [-> | Hne]; [exact Hq |].
        apply Hnone; lia.
      * rewrite (attempt_fails k Hq). cbn [bind].
        replace (20 <? Z.of_nat (S k))%Z with false
          by (symmetry; apply Z.ltb_ge; lia).
        exact Hend.
Qed.

Lemma try_mapping_start fuel :
  try_mapping fuel p p_unit0 g = while_not_done fuel p (state_after p p_unit0 g 0).
Proof.
  unfold try_mapping, state_after. cbn [Nat.mul seq map query Z.of_nat].
  rewrite advance_0. reflexivity.
Qed.

(** The whole run, from the call. *)
Lemma try_mapping_run fuel :
  (21 <= fuel)%nat ->
  exists n,
    (0 < n <= 21)%nat /\
    (forall j, (S j < n)%nat ->
               transform_real_to_unit_cell (query p g j) = None) /\
    ((exists q,
        transform_real_to_unit_cell (query p g (pred n)) = Some q /\
        try_mapping fuel p p_unit0 g = Ret (state_found p g (pred n) q)) \/
     (n = 21%nat /\
      transform_real_to_unit_cell (query p g 20) = None /\
      try_mapping fuel p p_unit0 g = Ret (state_after p p_unit0 g 21))).
Proof.
  intros Hfuel. rewrite try_mapping_start.
  destruct (loop_from 20 0 fuel) as (n & Hn & Hnone & Hend); [lia | lia |].
  exists n. split; [lia |]. split; [| exact Hend].
  intros j Hj. apply Hnone; lia.
Qed.

Lemma try_mapping_all_fail fuel :
  (21 <= fuel)%nat ->
  (forall q, transform_real_to_unit_cell q = None) ->
  try_mapping fuel p p_unit0 g = Ret (state_after p p_unit0 g 21).
Proof.
  intros Hfuel Hall.
  destruct (try_mapping_run fuel Hfuel) as (n & _ & _ & [(q & Hq & _) | (_ & _ & Hr)]).
  - rewrite Hall in Hq. discriminate.
  - exact Hr.
Qed.

End Loop.

Lemma perturbed_nth draw k0 (p : Point num) d i :
  (i < length p)%nat ->
  nth i (perturbed draw k0 p) d = (nth i p d + offset RAND_MAX (draw (k0 + i)%nat))%D.
Proof.
  revert k0 i. induction p as [| x p IH]; intros k0 i Hi; simpl in Hi; [lia |].
  destruct i as [| i]; simpl.
  - rewrite Nat.add_0_r. reflexivity.
  - rewrite IH by lia. rewrite Nat.add_succ_r. reflexivity.
Qed.

Lemma queries_nth (p : Point num) g n k :
  (k < n)%nat -> nth k (map (query p g) (seq 0 n)) [] = query p g k.
Proof.
  intros Hk.
  rewrite (nth_indep _ [] (query p g 0)) by (rewrite length_map, length_seq; exact Hk).
  rewrite map_nth, seq_nth by exact Hk. reflexivity.
Qed.

Lemma queries_shift (p : Point num) g n :
  map (query p g) (seq 0 (S n)) =
    p :: map (fun j => perturbed (draws g) (pos g + j * Z.to_nat dim) p) (seq 0 n).
Proof.
  cbn [seq map]. f_equal. rewrite <- seq_shift, map_map. reflexivity.
Qed.


End TryMappingFacts.

Section TryMappingClaims.
Context {num : Type} `{DoubleOps num}.

Variable RAND_MAX : Z.
Variable transform_real_to_unit_cell : Point num -> option (Point num).
Variable dim : Z.

(** C1: [try_mapping] returns for every input, after at most 21 calls of
    the mapping; when every call fails it returns [false] after exactly
    21 of them, the first on [p] and the other 20 on perturbed points. *)
Theorem try_mapping_at_most_21_attempts
    (p p_unit0 : Point num) (g : rand_source) (fuel : nat) :
  length p = Z.to_nat dim ->
  (21 <= fuel)%nat ->
  exists s,
    try_mapping RAND_MAX transform_real_to_unit_cell dim fuel p p_unit0 g = Ret s /\
    (1 <= length (queried s) <= 21)%nat /\
    ((forall q, transform_real_to_unit_cell q = None) ->
     mapping_done s = false /\
     length (queried s) = 21%nat /\
     queried s =
       p :: map (fun j => perturbed RAND_MAX (draws g) (pos g + j * Z.to_nat dim) p)
                (seq 0 20)).
Proof.
  intros Hdim Hfuel.
  destruct (try_mapping_run RAND_MAX transform_real_to_unit_cell dim
              p p_unit0 g Hdim fuel Hfuel)
    as (n & Hn & _ & [(q & Hq & Hr) | (-> & _ & Hr)]).
  - exists (state_found RAND_MAX dim p g (pred n) q).
    split; [exact Hr |]. split.
    + cbn [queried state_found]. rewrite length_map, length_seq. lia.
    + intros Hall. rewrite Hall in Hq. discriminate.
  - exists (state_after RAND_MAX dim p p_unit0 g 21).
    split; [exact Hr |]. split.
    + cbn [queried state_after]. rewrite length_map, length_seq. lia.
    + intros _. split; [reflexivity |]. split.
      * cbn [queried state_after]. rewrite length_map, length_seq. reflexivity.
      * cbn [queried state_after]. apply queries_shift.
Qed.

(** C3: [try_mapping] returns [true] with [p_unit] holding what the mapping
    returned for the last point it was given, all earlier points having
    failed; or it returns [false], every one of its 21 points has failed,
    and [p_unit] is what it was on entry. *)
Theorem try_mapping_failure_leaves_p_unit
    (p p_unit0 : Point num) (g : rand_source) (fuel : nat) :
  length p = Z.to_nat dim ->
  (21 <= fuel)%nat ->
  exists s,
    try_mapping RAND_MAX transform_real_to_unit_cell dim fuel p p_unit0 g = Ret s /\
    ((mapping_done s = true /\
      exists earlier q,
        queried s = earlier ++ [q] /\
        transform_real_to_unit_cell q = Some (p_unit s) /\
        forall q', In q' earlier -> transform_real_to_unit_cell q' = None) \/
     (mapping_done s = false /\
      p_unit s = p_unit0 /\
      length (queried s) = 21%nat /\
      forall q, In q (queried s) -> transform_real_to_unit_cell q = None)).
Proof.
  intros Hdim Hfuel.
  destruct (try_mapping_run RAND_MAX transform_real_to_unit_cell dim
              p p_unit0 g Hdim fuel Hfuel)
    as (n & Hn & Hnone & [(q & Hq & Hr) | (-> & H20 & Hr)]).
  - exists (state_found RAND_MAX dim p g (pred n) q).
    split; [exact Hr |]. left. split; [reflexivity |].
    exists (map (query RAND_MAX dim p g) (seq 0 (pred n))),
           (query RAND_MAX dim p g (pred n)).
    split; [| split].
    + cbn [queried state_found]. rewrite seq_S, map_app. reflexivity.
    + exact Hq.
    + intros q' Hin. apply in_map_iff in Hin. destruct Hin as (j & <- & Hj).
      apply in_seq in Hj. apply Hnone. lia.
  - exists (state_after RAND_MAX dim p p_unit0 g 21).
    split; [exact Hr |]. right.
    split; [reflexivity |]. split; [reflexivity |]. split.
    + cbn [queried state_after]. rewrite length_map, length_seq. reflexivity.
    + intros q Hin. cbn [queried state_after] in Hin.
      apply in_map_iff in Hin. destruct Hin as (j & <- & Hj).
      apply in_seq in Hj.
      destruct (Nat.eq_dec j 20) as [-> | Hne]; [exact H20 |].
      apply Hnone. lia.
Qed.

(** The points of the retries, for any arithmetic: axis [i] of the point
    of retry [k] is axis [i] of [p] plus the offset computed from a draw
    of its own. *)
Lemma retry_point_axis (p p_unit0 : Point num) (g : rand_source) (fuel : nat) :
  length p = Z.to_nat dim ->
  (21 <= fuel)%nat ->
  exists s,
    try_mapping RAND_MAX transform_real_to_unit_cell dim fuel p p_unit0 g = Ret s /\
    forall k i d,
      (1 <= k < length (queried s))%nat -> (i < Z.to_nat dim)%nat ->
      nth i (nth k (queried s) []) d =
        (nth i p d + offset RAND_MAX (draws g (pos g + draw_index dim k i)))%D.
Proof.
  intros Hdim Hfuel.
  assert (Hq : forall n k i d,
             (1 <= k < n)%nat -> (i < Z.to_nat dim)%nat ->
             nth i (nth k (map (query RAND_MAX dim p g) (seq 0 n)) []) d =
               (nth i p d + offset RAND_MAX (draws g (pos g + draw_index dim k i)))%D).
  { intros n k i d Hk Hi. rewrite queries_nth by lia.
    destruct k as [| k]; [lia |]. cbn [query].
    rewrite perturbed_nth by lia.
    unfold draw_index. rewrite Nat.add_assoc.
    replace (S k - 1)%nat with k by lia. reflexivity. }
  destruct (try_mapping_run RAND_MAX transform_real_to_unit_cell dim
              p p_unit0 g Hdim fuel Hfuel)
    as (n & Hn & _ & [(q & _ & Hr) | (-> & _ & Hr)]).
  - eexists. split; [exact Hr |].
    intros k i d Hk Hi. cbn [queried state_found] in *.
    rewrite length_map, length_seq in Hk. apply Hq; lia.
  - eexists. split; [exact Hr |].
    intros k i d Hk Hi. cbn [queried state_after] in *.
    rewrite length_map, length_seq in Hk. apply Hq; lia.
Qed.

End TryMappingClaims.

Lemma try_mapping_at_most_21_attempts_witness :
  exists s,
    try_mapping (num := PrimFloat.float) 32767 never_inverts 2 21
      [dlit 1 2; dlit 1 2] [dconv 0; dconv 0] two_ends = Ret s /\
    (1 <= length (queried s) <= 21)%nat /\
    ((forall q, never_inverts (num := PrimFloat.float) q = None) ->
     mapping_done s = false /\
     length (queried s) = 21%nat /\
     queried s =
       [dlit 1 2; dlit 1 2]
         :: map (fun j => perturbed 32767 (draws two_ends)
                            (pos two_ends + j * Z.to_nat 2) [dlit 1 2; dlit 1 2])
                (seq 0 20)).
Proof.
  apply (try_mapping_at_most_21_attempts 32767 never_inverts 2
           [dlit 1 2; dlit 1 2] [dconv 0; dconv 0] two_ends 21).
  - reflexivity.
  - lia.
Defined.

Lemma try_mapping_failure_leaves_p_unit_witness :
  exists s,
    try_mapping (num := PrimFloat.float) 32767 never_inverts 2 21
      [dlit 1 2; dlit 1 2] [dconv 7; dconv 7] two_ends = Ret s /\
    ((mapping_done s = true /\
      exists earlier q,
        queried s = earlier ++ [q] /\
        never_inverts q = Some (p_unit s) /\
        forall q', In q' earlier -> never_inverts q' = None) \/
     (mapping_done s = false /\
      p_unit s = [dconv 7; dconv 7] /\
      length (queried s) = 21%nat /\
      forall q, In q (queried s) -> never_inverts q = None)).
Proof.
  apply (try_mapping_failure_leaves_p_unit 32767 never_inverts 2
           [dlit 1 2; dlit 1 2] [dconv 7; dconv 7] two_ends 21).
  - reflexivity.
  - lia.
Defined.

Section RetryPoints.
Local Open Scope R_scope.

Lemma offset_exact (M r : Z) :
  offset (num := R) M r = 1 / 10000 * (-1 + 2 * (IZR r / IZR M)).
Proof. reflexivity. Qed.

Lemma fraction_range (M r : Z) :
  (0 < M)%Z -> (0 <= r <= M)%Z -> 0 <= IZR r / IZR M <= 1.
Proof.
  intros HM [Hr0 HrM].
  apply IZR_lt in HM. apply IZR_le in Hr0, HrM.
  split.
  - apply Rmult_le_pos; [exact Hr0 | left; apply Rinv_0_lt_compat; exact HM].
  - apply (Rmult_le_reg_r (IZR M)); [exact HM |].
    unfold Rdiv. rewrite Rmult_assoc, Rinv_l by lra. lra.
Qed.

Lemma draw_index_inj (dim : Z) (k i k' i' : nat) :
  (1 <= k)%nat -> (1 <= k')%nat ->
  (i < Z.to_nat dim)%nat -> (i' < Z.to_nat dim)%nat ->
  draw_index dim k i = draw_index dim k' i' -> k = k' /\ i = i'.
Proof.
  unfold draw_index. intros Hk Hk' Hi Hi' Heq.
  assert (Hkk : (k - 1 = k' - 1)%nat) by nia.
  split; [lia |]. rewrite Hkk in Heq. lia.
Qed.

(** C2, as stated, fails: [rand()] can return [RAND_MAX], and then the
    fraction is 1, not a number of [0,1): the first retry of a call on the
    point [0] of the line asks for [0 + 1/10000], which no [u] of [0,1)
    gives.  The fraction is 1 in binary64 as well. *)
Lemma fraction_reaches_one :
  exists s,
    try_mapping (num := R) 2147483647 never_inverts 1 21 [0] [0] top_end = Ret s /\
    nth 0 (nth 1 (queried s) []) 0 = 0 + 1 / 10000 /\
    (forall u : R, 0 <= u < 1 ->
       nth 0 (nth 1 (queried s) []) 0 <> 0 + 1 / 10000 * (-1 + 2 * u)) /\
    PrimFloat.ltb (fraction (num := PrimFloat.float) 2147483647 2147483647)
                  (dconv 1) = false.
Proof.
  eexists. split.
  - apply try_mapping_all_fail; [reflexivity | lia | reflexivity].
  - cbn [queried state_after seq map nth query perturbed top_end draws pos
           Nat.add Nat.mul].
    rewrite offset_exact. to_real.
    split; [| split].
    + lra.
    + intros u Hu Heq. lra.
    + vm_compute. reflexivity.
Qed.

(** C2, amended: for every retry, each axis of the point handed to the
    mapping is that axis of the original [p] plus
    [0.0001 * (-1 + 2 * (rand()/RAND_MAX))], in the arithmetic of the code,
    with a draw made for this axis of this retry and used for nothing else.
    The exact value of the fraction [u = rand()/RAND_MAX] lies in [0,1]
    (1 included), that of the offset [1e-4 * (-1 + 2u)] in [-1e-4, 1e-4]. *)
Theorem retry_points_perturb_original {num : Type} `{DoubleOps num}
    (RAND_MAX : Z) (transform_real_to_unit_cell : Point num -> option (Point num))
    (dim : Z) (p p_unit0 : Point num) (g : rand_source) (fuel : nat) :
  (0 < RAND_MAX)%Z ->
  (forall n, (0 <= draws g n <= RAND_MAX)%Z) ->
  length p = Z.to_nat dim ->
  (21 <= fuel)%nat ->
  exists s,
    try_mapping RAND_MAX transform_real_to_unit_cell dim fuel p p_unit0 g = Ret s /\
    (forall k i d,
        (1 <= k < length (queried s))%nat -> (i < Z.to_nat dim)%nat ->
        let r := draws g (pos g + draw_index dim k i) in
        nth i (nth k (queried s) []) d =
          (nth i p d +
           dlit 1 10000 * (dconv (-1) + dconv 2 * (dconv r / dconv RAND_MAX)))%D /\
        0 <= IZR r / IZR RAND_MAX <= 1 /\
        -1 / 10000 <= 1 / 10000 * (-1 + 2 * (IZR r / IZR RAND_MAX)) <= 1 / 10000) /\
    (forall k i k' i',
        (1 <= k)%nat -> (1 <= k')%nat ->
        (i < Z.to_nat dim)%nat -> (i' < Z.to_nat dim)%nat ->
        draw_index dim k i = draw_index dim k' i' -> k = k' /\ i = i').
Proof.
  intros HM Hdraws Hdim Hfuel.
  destruct (retry_point_axis RAND_MAX transform_real_to_unit_cell dim
              p p_unit0 g fuel Hdim Hfuel) as (s & Hs & Haxis).
  exists s. split; [exact Hs |]. split.
  - intros k i d Hk Hi r.
    pose proof (fraction_range RAND_MAX r HM
                  (Hdraws (pos g + draw_index dim k i)%nat)) as Hu.
    split; [| split; [exact Hu | lra]].
    rewrite (Haxis k i d Hk Hi). reflexivity.
  - apply draw_index_inj.
Qed.

Lemma retry_points_perturb_original_witness :
  exists s,
    try_mapping (num := PrimFloat.float) 32767 never_inverts 2 21
      [dlit 1 2; dlit 1 2] [dconv 0; dconv 0] two_ends = Ret s /\
    (forall k i d,
        (1 <= k < length (queried s))%nat -> (i < Z.to_nat 2)%nat ->
        let r := draws two_ends (pos two_ends + draw_index 2 k i) in
        nth i (nth k (queried s) []) d =
          (nth i [dlit 1 2; dlit 1 2] d +
           dlit 1 10000 * (dconv (-1) + dconv 2 * (dconv r / dconv 32767)))%D /\
        0 <= IZR r / IZR 32767 <= 1 /\
        -1 / 10000 <= 1 / 10000 * (-1 + 2 * (IZR r / IZR 32767)) <= 1 / 10000) /\
    (forall k i k' i',
        (1 <= k)%nat -> (1 <= k')%nat ->
        (i < Z.to_nat 2)%nat -> (i' < Z.to_nat 2)%nat ->
        draw_index 2 k i = draw_index 2 k' i' -> k = k' /\ i = i').
Proof.
  apply (retry_points_perturb_original 32767 never_inverts 2
           [dlit 1 2; dlit 1 2] [dconv 0; dconv 0] two_ends 21).
  - lia.
  - intros n. simpl. destruct (Nat.even n); lia.
  - reflexivity.
  - lia.
Defined.

End RetryPoints.

(** * Properties of [triangle_area] *)

Section ProjectedArea.
Local Open Scope R_scope.

Lemma projected_area_exact (x1 y1 x2 y2 x3 y3 : R) (r1 r2 r3 : list R) :
  triangle_area (num := R) (x1 :: y1 :: r1) (x2 :: y2 :: r2) (x3 :: y3 :: r3) true =
    Ret (1 / 2 * Rabs (x1 * (y2 - y3) + x2 * (y3 - y1) + x3 * (y1 - y2))).
Proof.
  unfold triangle_area, coord. cbn [nth_error bind]. to_real.
  rewrite Rabs_mult, (Rabs_right (1 / 2)) by lra. reflexivity.
Qed.

(** C4, as stated, fails in the arithmetic of the code: in binary64 the
    three products are added in the order the arguments give, and a cyclic
    permutation of the triangle (0.1,0), (0.1,0.3), (0.3,0.1) changes the
    rounded sum, hence the area returned. *)
Lemma projected_area_permutation_rounds :
  exists r r',
    triangle_area [tenths 1; tenths 0] [tenths 1; tenths 3] [tenths 3; tenths 1] true
      = Ret r /\
    triangle_area [tenths 1; tenths 3] [tenths 3; tenths 1] [tenths 1; tenths 0] true
      = Ret r' /\
    PrimFloat.ltb r' r = true /\
    r <> r'.
Proof.
  eexists. eexists.
  split; [vm_compute; reflexivity |].
  split; [vm_compute; reflexivity |].
  split; [vm_compute; reflexivity |].
  intros Heq.
  match type of Heq with
  | _ = ?b => apply (f_equal (fun v => PrimFloat.ltb b v)) in Heq
  end.
  vm_compute in Heq. discriminate.
Qed.

(** In binary64, an absolute value is never below zero (it is zero, positive
    or not a number). *)
Lemma abs_not_negative (x : PrimFloat.float) :
  PrimFloat.ltb (PrimFloat.abs x) (dconv 0) = false.
Proof.
  rewrite FloatAxioms.ltb_spec, FloatAxioms.abs_spec.
  change (FloatOps.Prim2SF (dconv 0)) with (SpecFloat.S754_zero false).
  destruct (FloatOps.Prim2SF x) as [sx | sx | | sx mx ex]; reflexivity.
Qed.

(** C4, amended: in exact real arithmetic, for all points [A], [B], [C]
    with at least two coordinates, [triangle_area] with [project = true]
    is [0.5 * |Ax(By-Cy) + Bx(Cy-Ay) + Cx(Ay-By)|], computed from the
    first two coordinates only; it is non-negative, and the same for all
    six orders of the three points.  In binary64 the value returned is never
    negative either (the six orders agree up to rounding only). *)
Theorem projected_area_shoelace (x1 y1 x2 y2 x3 y3 : R) (r1 r2 r3 : list R) :
  let A := x1 :: y1 :: r1 in
  let B := x2 :: y2 :: r2 in
  let C := x3 :: y3 :: r3 in
  let area := 1 / 2 * Rabs (x1 * (y2 - y3) + x2 * (y3 - y1) + x3 * (y1 - y2)) in
  (triangle_area (num := R) A B C true = Ret area /\
   0 <= area /\
   triangle_area (num := R) B C A true = Ret area /\
   triangle_area (num := R) C A B true = Ret area /\
   triangle_area (num := R) B A C true = Ret area /\
   triangle_area (num := R) A C B true = Ret area /\
   triangle_area (num := R) C B A true = Ret area) /\
  (forall (P Q S : Point PrimFloat.float) (r : PrimFloat.float),
      triangle_area P Q S true = Ret r -> PrimFloat.ltb r (dconv 0) = false).
Proof.
  intros A B C area. subst A B C area. split.
  - rewrite !projected_area_exact.
    split; [reflexivity |].
    split; [pose proof (Rabs_pos (x1 * (y2 - y3) + x2 * (y3 - y1) + x3 * (y1 - y2))); lra |].
    repeat split; do 2 f_equal.
    + f_equal. ring.
    + f_equal. ring.
    + rewrite <- Rabs_Ropp. f_equal. ring.
    + rewrite <- Rabs_Ropp. f_equal. ring.
    + rewrite <- Rabs_Ropp. f_equal. ring.
  - intros P Q S r. unfold triangle_area.
    destruct (coord P 0) as [p0 | |]; try discriminate.
    destruct (coord P 1) as [p1 | |]; try discriminate.
    destruct (coord Q 0) as [q0 | |]; try discriminate.
    destruct (coord Q 1) as [q1 | |]; try discriminate.
    destruct (coord S 0) as [s0 | |]; try discriminate.
    destruct (coord S 1) as [s1 | |]; try discriminate.
    cbn [bind]. intros Hr. injection Hr as <-.
    apply abs_not_negative.
Qed.

Lemma projected_area_shoelace_witness :
  exists r : PrimFloat.float,
    triangle_area [tenths 1; tenths 0] [tenths 1; tenths 3] [tenths 3; tenths 1] true
      = Ret r /\
    PrimFloat.ltb r (dconv 0) = false.
Proof.
  eexists. split.
  - vm_compute. reflexivity.
  - apply (proj2 (projected_area_shoelace 0 0 1 0 0 1 [] [] [])
             [tenths 1; tenths 0] [tenths 1; tenths 3] [tenths 3; tenths 1]).
    vm_compute. reflexivity.
Defined.

End ProjectedArea.

Section TrueArea.
Context {num : Type} `{DoubleOps num}.
Local Open Scope dbl_scope.

(** The value computed on the [project = false] path from the first three
    coordinates of each point. *)
Lemma true_area_three (x1 y1 z1 x2 y2 z2 x3 y3 z3 : num) (r1 r2 r3 : list num) :
  triangle_area (x1 :: y1 :: z1 :: r1) (x2 :: y2 :: z2 :: r2) (x3 :: y3 :: z3 :: r3) false =
    Ret (dlit 1 2 * dsqrt
           (pow2 (x1 * y2 - x2 * y1 - x1 * y3 + x3 * y1 + x2 * y3 - x3 * y2) +
            pow2 (x1 * z2 - x2 * z1 - x1 * z3 + x3 * z1 + x2 * z3 - x3 * z2) +
            pow2 (y1 * z2 - y2 * z1 - y1 * z3 + y3 * z1 + y2 * z3 - y3 * z2))).
Proof. reflexivity. Qed.

(** C5, amended: [triangle_area] checks no dimension and has no
    InvalidDimension outcome.  With [project = false], on points of [dim]
    coordinates, it returns half the root of the sum of the three squared
    minors of the coordinates 0, 1, 2 whenever [dim >= 3] (3 or more); for
    [dim < 3] it reaches a read of a coordinate the points do not have. *)
Theorem true_area_by_dimension (dim : nat) (A B C : Point num) :
  length A = dim -> length B = dim -> length C = dim ->
  triangle_area A B C false =
    if (3 <=? dim)%nat then
      let d := dconv 0 in
      let x1 := nth 0 A d in let y1 := nth 1 A d in let z1 := nth 2 A d in
      let x2 := nth 0 B d in let y2 := nth 1 B d in let z2 := nth 2 B d in
      let x3 := nth 0 C d in let y3 := nth 1 C d in let z3 := nth 2 C d in
      Ret (dlit 1 2 * dsqrt
             (pow2 (x1 * y2 - x2 * y1 - x1 * y3 + x3 * y1 + x2 * y3 - x3 * y2) +
              pow2 (x1 * z2 - x2 * z1 - x1 * z3 + x3 * z1 + x2 * z3 - x3 * z2) +
              pow2 (y1 * z2 - y2 * z1 - y1 * z3 + y3 * z1 + y2 * z3 - y3 * z2)))
    else OutOfRange.
Proof.
  intros HA HB HC.
  destruct dim as [| [| [| dim]]].
  - destruct A; [reflexivity | discriminate].
  - destruct A as [| x1 [| ? ?]]; try discriminate. reflexivity.
  - destruct A as [| x1 [| y1 [| ? ?]]]; try discriminate. reflexivity.
  - destruct A as [| x1 [| y1 [| z1 r1]]]; try discriminate.
    destruct B as [| x2 [| y2 [| z2 r2]]]; try discriminate.
    destruct C as [| x3 [| y3 [| z3 r3]]]; try discriminate.
    reflexivity.
Qed.

End TrueArea.

(** C5, as stated, fails: on points of four coordinates, with
    [project = false], [triangle_area] returns the area 6 of the triangle
    with legs 3 and 4 where the documentation has an InvalidDimension
    failure. *)
Lemma true_area_dim4_returns :
  let A : Point PrimFloat.float := [dconv 0; dconv 0; dconv 0; dconv 0] in
  let B : Point PrimFloat.float := [dconv 3; dconv 0; dconv 0; dconv 0] in
  let C : Point PrimFloat.float := [dconv 0; dconv 4; dconv 0; dconv 0] in
  triangle_area A B C false = Ret (dconv 6) /\
  documented_triangle_area 4 A B C false = Fails InvalidDimension /\
  documented_triangle_area 4 A B C false <> Returns (triangle_area A B C false).
Proof.
  split; [vm_compute; reflexivity |].
  split; [reflexivity |].
  discriminate.
Qed.

Lemma true_area_by_dimension_witness :
  triangle_area (num := PrimFloat.float)
    [dconv 0; dconv 0] [dconv 3; dconv 0] [dconv 0; dconv 4] false = OutOfRange.
Proof.
  apply (true_area_by_dimension 2
           [dconv 0; dconv 0] [dconv 3; dconv 0] [dconv 0; dconv 4]);
    reflexivity.
Defined.

(** * Properties of [recharge_weight] *)

Section RechargeWeight.
Context {num : Type} `{DoubleOps num}.
Local Open Scope dbl_scope.

(** C6: [recharge_weight] is, for [dim = 2], [|v2.x - v1.x|] over the
    Euclidean distance of the two vertices of the face; for [dim = 3], the
    sum of the projected areas of the triangles (v1,v2,v4) and (v1,v4,v3)
    over the sum of their true areas; for every other [dim], 1. *)
Theorem recharge_weight_by_dimension (dim : Z) (vertex : nat -> Point num) :
  (dim = 2%Z ->
   forall x1 y1 x2 y2,
     vertex 0%nat = [x1; y1] -> vertex 1%nat = [x2; y2] ->
     distance (vertex 0%nat) (vertex 1%nat) =
       dsqrt (dconv 0 + pow2 (x1 - x2) + pow2 (y1 - y2)) /\
     recharge_weight dim vertex =
       Ret (dabs (x2 - x1) / distance (vertex 0%nat) (vertex 1%nat))) /\
  (dim = 3%Z ->
   forall p1 p2 t1 t2,
     triangle_area (vertex 0%nat) (vertex 1%nat) (vertex 3%nat) true = Ret p1 ->
     triangle_area (vertex 0%nat) (vertex 3%nat) (vertex 2%nat) true = Ret p2 ->
     triangle_area (vertex 0%nat) (vertex 1%nat) (vertex 3%nat) false = Ret t1 ->
     triangle_area (vertex 0%nat) (vertex 3%nat) (vertex 2%nat) false = Ret t2 ->
     recharge_weight dim vertex = Ret ((p1 + p2) / (t1 + t2))) /\
  (dim <> 2%Z -> dim <> 3%Z -> recharge_weight dim vertex = Ret (dconv 1)).
Proof.
  split; [| split].
  - intros -> x1 y1 x2 y2 Hv1 Hv2.
    unfold recharge_weight. cbn [Z.eqb Pos.eqb].
    rewrite Hv1, Hv2. split; reflexivity.
  - intros -> p1 p2 t1 t2 Hp1 Hp2 Ht1 Ht2.
    unfold recharge_weight, A_real, A_proj. cbn [Z.eqb Pos.eqb].
    rewrite Hp1, Hp2, Ht1, Ht2. reflexivity.
  - intros H2 H3. unfold recharge_weight.
    destruct (Z.eqb_spec dim 2); [contradiction |].
    destruct (Z.eqb_spec dim 3); [contradiction |].
    reflexivity.
Qed.

End RechargeWeight.

Lemma recharge_weight_by_dimension_witness :
  recharge_weight (num := PrimFloat.float) 2
    (face_of [[dconv 0; dconv 0]; [dconv 3; dconv 4]]) =
    Ret (ddiv (dabs (dsub (dconv 3) (dconv 0)))
              (distance [dconv 0; dconv 0] [dconv 3; dconv 4])) /\
  recharge_weight (num := PrimFloat.float) 1 (face_of []) = Ret (dconv 1).
Proof.
  split.
  - apply (proj1 (recharge_weight_by_dimension 2
             (face_of [[dconv 0; dconv 0]; [dconv 3; dconv 4]])) eq_refl
             (dconv 0) (dconv 0) (dconv 3) (dconv 4) eq_refl eq_refl).
  - apply (proj2 (proj2 (recharge_weight_by_dimension 1 (face_of [])))); lia.
Defined.

Section WeightRange.
Local Open Scope R_scope.

Lemma sq_nonneg (a : R) : 0 <= a * a.
Proof. apply Rle_0_sqr. Qed.

Lemma sq_zero (a : R) : a * a = 0 -> a = 0.
Proof. intros Ha. apply Rmult_integral in Ha. destruct Ha; assumption. Qed.

Lemma sum_sq_zero (b c : R) : b * b + c * c = 0 -> b = 0 /\ c = 0.
Proof.
  intros Hs. pose proof (sq_nonneg b). pose proof (sq_nonneg c).
  split; apply sq_zero; lra.
Qed.

Lemma abs_le_sqrt (a s : R) : a * a <= s -> Rabs a <= sqrt s.
Proof.
  intros Hs. rewrite <- sqrt_Rsqr_abs. apply sqrt_le_1_alt. exact Hs.
Qed.

Lemma sqrt_eq_abs (a s : R) : 0 <= s -> (sqrt s = Rabs a <-> s = a * a).
Proof.
  intros Hs. split; intros Heq.
  - rewrite <- (sqrt_sqrt s Hs), Heq.
    unfold Rabs. destruct (Rcase_abs a); ring.
  - rewrite Heq. apply sqrt_Rsqr_abs.
Qed.



Lemma true_area_exact (x1 y1 z1 x2 y2 z2 x3 y3 z3 : R) :
  triangle_area (num := R) [x1; y1; z1] [x2; y2; z2] [x3; y3; z3] false =
    Ret (1 / 2 * sqrt (minor_xy x1 y1 x2 y2 x3 y3 * minor_xy x1 y1 x2 y2 x3 y3 +
                       minor_xy x1 z1 x2 z2 x3 z3 * minor_xy x1 z1 x2 z2 x3 z3 +
                       minor_xy y1 z1 y2 z2 y3 z3 * minor_xy y1 z1 y2 z2 y3 z3)).
Proof. reflexivity. Qed.

Lemma projected_area_minor (x1 y1 x2 y2 x3 y3 : R) (r1 r2 r3 : list R) :
  triangle_area (num := R) (x1 :: y1 :: r1) (x2 :: y2 :: r2) (x3 :: y3 :: r3) true =
    Ret (1 / 2 * Rabs (minor_xy x1 y1 x2 y2 x3 y3)).
Proof.
  unfold triangle_area, coord. cbn [nth_error bind]. to_real.
  rewrite Rabs_mult, (Rabs_right (1 / 2)) by lra.
  do 3 f_equal. unfold minor_xy. ring.
Qed.

Lemma edge_weight_exact (x1 y1 x2 y2 : R) :
  recharge_weight (num := R) 2 (face_of [[x1; y1]; [x2; y2]]) =
    Ret (Rabs (x2 - x1) / distance (num := R) [x1; y1] [x2; y2]).
Proof. reflexivity. Qed.

Lemma distance_exact (x1 y1 x2 y2 : R) :
  distance (num := R) [x1; y1] [x2; y2] =
    sqrt ((x1 - x2) * (x1 - x2) + (y1 - y2) * (y1 - y2)).
Proof.
  unfold distance, distance_square. cbn [combine fold_left fst snd]. to_real.
  f_equal. ring.
Qed.






(** In binary64 the distance of the weight of a level face from 1 is not a
    matter of the last bits.  The true area multiplies the minors out on
    the coordinates themselves (lines 98-100), where the projected area
    takes differences of coordinates first (line 91): far from the origin
    the products are large, and their difference keeps few digits.  For
    the level square of side 0.37 with its corner at
    (612345.678, 4123456.789) the true area comes out as 0.13720703125,
    the projected one as 0.1369..., and the weight below 0.998 (it is
    0.99776...). *)
Lemma level_quad_at_map_coordinates :
  let v1 := [thousandths 612345678; thousandths 4123456789; dconv 0] in
  let v2 := [thousandths 612346048; thousandths 4123456789; dconv 0] in
  let v3 := [thousandths 612345678; thousandths 4123457159; dconv 0] in
  let v4 := [thousandths 612346048; thousandths 4123457159; dconv 0] in
  exists w,
    A_real v1 v2 v3 v4 = Ret (dlit 13720703125 100000000000) /\
    recharge_weight 3 (face_of [v1; v2; v3; v4]) = Ret w /\
    PrimFloat.ltb w (thousandths 998) = true /\
    PrimFloat.ltb (thousandths 997) w = true.
Proof.
  intros v1 v2 v3 v4. subst v1 v2 v3 v4.
  eexists.
  split; [vm_compute; reflexivity |].
  split; [vm_compute; reflexivity |].
  split; vm_compute; reflexivity.
Qed.

End WeightRange.

(** * Runs in binary64 *)

Section Runs.
Import PrimFloat.

(** The literals of the source as [dlit] and [dconv] give them: [0.5],
    [-1.0], [2.0], and for [0.0001] the binary64 number nearest to it. *)
Example dlit_binary64 :
  (dlit 1 2 = 0.5 /\ dconv (-1) = -1 /\ dconv 2 = 2 /\
   dlit 1 10000 = 0x1.a36e2eb1c432dp-14)%float.
Proof. vm_compute. repeat split. Qed.

(** The right triangle with legs 3 and 4 along two axes has area 6. *)
Example right_triangle_area :
  triangle_area [0; 0; 0]%float [3; 0; 0]%float [0; 4; 0]%float false = Ret 6%float.
Proof. vm_compute. reflexivity. Qed.

(** An edge from (0,0) to (3,4): projected length 3, length 5. *)
Example sloping_edge_weight :
  recharge_weight 2 (face_of [[0; 0]; [3; 4]]%float) = Ret (3 / 5)%float.
Proof. vm_compute. reflexivity. Qed.

(** A vertical quadrilateral has projection 0 and weight 0. *)
Example vertical_quad_weight :
  recharge_weight 3 (face_of [[0; 0; 0]; [1; 0; 0]; [0; 0; 1]; [1; 0; 1]]%float)
    = Ret 0%float.
Proof. vm_compute. reflexivity. Qed.

(** A mapping that inverts at once: one attempt, no retry, no draw. *)
Example first_attempt_succeeds :
  match try_mapping 32767 (fun q => Some q) 2 21 [0.5; 0.5]%float [0; 0]%float two_ends with
  | Ret s => (mapping_done s, count_try s, p_unit s, queried s, pos (gen s))
  | _ => (false, 0%Z, [], [], 0%nat)
  end = (true, 0%Z, [0.5; 0.5]%float, [[0.5; 0.5]%float], 0%nat).
Proof. vm_compute. reflexivity. Qed.

(** A mapping that never inverts: 21 attempts, [p_unit] untouched; the
    handler has drawn [dim] numbers after each of the 21 failures. *)
Example all_attempts_fail :
  match try_mapping 32767 never_inverts 2 21 [0.5; 0.5]%float [7; 7]%float two_ends with
  | Ret s => (mapping_done s, count_try s, p_unit s, length (queried s), pos (gen s))
  | _ => (true, 0%Z, [], 0%nat, 0%nat)
  end = (false, 21%Z, [7; 7]%float, 21%nat, 42%nat).
Proof. vm_compute. reflexivity. Qed.

(** With less fuel than 21 the model of the loop does not reach the end of
    such a run. *)
Example fuel_20_is_short :
  try_mapping 32767 never_inverts 2 20 [0.5; 0.5]%float [7; 7]%float two_ends = OutOfFuel.
Proof. vm_compute. reflexivity. Qed.

End Runs.

(** * Properties of [linspace] *)

Section LinspaceFacts.
Context {num : Type} `{DoubleOps num} `{DoubleFloor num}.

Lemma int_range_length a k : length (int_range a k) = k.
Proof. revert a. induction k as [| k IH]; intros a; simpl; auto. Qed.

Lemma int_range_nth a k j d :
  (j < k)%nat -> nth j (int_range a k) d = (a + Z.of_nat j)%Z.
Proof.
  revert a j. induction k as [| k IH]; intros a j Hj; [lia |].
  destruct j as [| j]; simpl.
  - lia.
  - rewrite IH by lia. lia.
Qed.

Lemma insert_at_end {A : Type} (l : list A) (x : A) :
  insert_at l (Z.of_nat (length l)) x = l ++ [x].
Proof.
  unfold insert_at. rewrite Nat2Z.id, firstn_all, skipn_all. reflexivity.
Qed.

(** The loop, entered at index [i] with [k] turns to go and the iterator at
    the end of the vector, appends the numbers of the indices [i .. i+k-1]
    and leaves the iterator at the end. *)
Lemma linspace_loop_from (min max : num) (n : Z) (k : nat) :
  forall (fuel : nat) (i : Z) (s : linspace_state),
    (k <= fuel)%nat ->
    Z.of_nat k = Z.max 0 (n - 1 - i) ->
    iterator s = Z.of_nat (length (result s)) ->
    linspace_loop fuel min max n i s =
      Ret {| result := result s ++ map (linspace_temp min max n) (int_range i k);
             iterator := Z.of_nat (length (result s) + k) |}.
Proof.
  induction k as [| k IH]; intros fuel i s Hfuel Hk Hit.
  - assert (Hc : (i <=? n - 2)%Z = false) by (apply Z.leb_gt; lia).
    destruct fuel; cbn [linspace_loop]; rewrite Hc;
      destruct s as [r it]; cbn [result iterator] in *;
      rewrite app_nil_r, Nat.add_0_r, Hit; reflexivity.
  - assert (Hc : (i <=? n - 2)%Z = true) by (apply Z.leb_le; lia).
    destruct fuel as [| fuel]; [lia |].
    cbn [linspace_loop]. rewrite Hc.
    rewrite IH.
    + unfold linspace_body. cbn [result iterator].
      rewrite Hit, insert_at_end, <- app_assoc, length_app.
      cbn [length app map int_range]. unfold linspace_temp at 2.
      do 2 f_equal. lia.
    + lia.
    + lia.
    + unfold linspace_body. cbn [result iterator].
      rewrite Hit, insert_at_end, length_app. cbn [length]. lia.
Qed.

Lemma linspace_closed_form (fuel : nat) (min max : num) (n : Z) :
  (Z.to_nat (n - 1) <= fuel)%nat ->
  linspace fuel min max n =
    Ret (map (linspace_temp min max n) (int_range 0 (Z.to_nat (n - 1))) ++ [max]).
Proof.
  intros Hfuel. unfold linspace.
  rewrite (linspace_loop_from min max n (Z.to_nat (n - 1))) by (cbn; lia).
  cbn [bind result iterator app length Nat.add].
  rewrite <- (int_range_length 0 (Z.to_nat (n - 1))) at 2.
  rewrite <- (length_map (linspace_temp min max n)).
  rewrite insert_at_end. reflexivity.
Qed.

(** X1: for every [int] [n] for which [n - 2] does not overflow (every [n]
    from [INT_MIN + 2] on; for the two smallest values of [int] the loop
    bound of the source is not defined and nothing is stated), [linspace]
    returns, and the vector it returns has [n] elements when [n >= 1] but
    one element (not none) when [n <= 0]; its last element is [max] itself,
    whatever the arithmetic; for [n <= 1] it is just [max], and [min] is
    not looked at. *)
Theorem linspace_length_and_last (fuel : nat) (min max : num) (n : Z) :
  int_minus_2_fits n ->
  (Z.to_nat (n - 1) <= fuel)%nat ->
  exists l,
    linspace fuel min max n = Ret l /\
    length l = Z.to_nat (Z.max 1 n) /\
    last l min = max /\
    ((n <= 1)%Z -> l = [max]) /\
    (forall i, (0 <= i < n - 1)%Z ->
               nth (Z.to_nat i) l max = linspace_temp min max n i).
Proof.
  intros _ Hfuel. rewrite (linspace_closed_form _ _ _ _ Hfuel).
  eexists. split; [reflexivity |].
  split; [| split; [| split]].
  - rewrite length_app, length_map, int_range_length. cbn [length]. lia.
  - apply last_last.
  - intros Hn. replace (Z.to_nat (n - 1)) with 0%nat by lia. reflexivity.
  - intros i Hi.
    rewrite app_nth1 by (rewrite length_map, int_range_length; lia).
    rewrite (nth_indep _ max (linspace_temp min max n 0))
      by (rewrite length_map, int_range_length; lia).
    rewrite map_nth, int_range_nth by lia.
    f_equal. lia.
Qed.

End LinspaceFacts.

Lemma linspace_length_and_last_witness :
  exists l,
    linspace (num := PrimFloat.float) 4 (dconv 0) (dconv 1) 5 = Ret l /\
    length l = Z.to_nat (Z.max 1 5) /\
    last l (dconv 0) = dconv 1 /\
    ((5 <= 1)%Z -> l = [dconv 1]) /\
    (forall i, (0 <= i < 5 - 1)%Z ->
               nth (Z.to_nat i) l (dconv 1) = linspace_temp (dconv 0) (dconv 1) 5 i).
Proof.
  apply (linspace_length_and_last 4 (dconv 0) (dconv 1) 5).
  - unfold int_minus_2_fits. lia.
  - simpl. lia.
Defined.

Section LinspaceExact.
Local Open Scope R_scope.

Lemma floor_of_int (n : Z) : dfloor (num := R) (IZR n) = IZR n.
Proof.
  cbn [dfloor exact_floor]. f_equal. symmetry. apply Int_part_spec. lra.
Qed.

Lemma linspace_temp_exact (min max : R) (n i : Z) :
  linspace_temp min max n i = min + IZR i * (max - min) / IZR (n - 1).
Proof.
  unfold linspace_temp. to_real. rewrite floor_of_int, minus_IZR. reflexivity.
Qed.

(** Every element of the vector, the last one included, is on the line from
    [min] to [max]. *)
Lemma linspace_nth_exact (fuel : nat) (min max : R) (n : Z) :
  (2 <= n)%Z ->
  (Z.to_nat (n - 1) <= fuel)%nat ->
  exists l,
    linspace fuel min max n = Ret l /\
    length l = Z.to_nat n /\
    forall i, (0 <= i <= n - 1)%Z ->
              nth (Z.to_nat i) l 0 = min + IZR i * (max - min) / IZR (n - 1).
Proof.
  intros Hn Hfuel. rewrite (linspace_closed_form _ _ _ _ Hfuel).
  eexists. split; [reflexivity |]. split.
  - rewrite length_app, length_map, int_range_length. cbn [length]. lia.
  - intros i Hi.
    destruct (Z.eq_dec i (n - 1)) as [-> | Hne].
    + rewrite app_nth2 by (rewrite length_map, int_range_length; lia).
      rewrite length_map, int_range_length, Nat.sub_diag. cbn [nth].
      assert (Hd : IZR (n - 1) <> 0) by (apply not_0_IZR; lia).
      field. exact Hd.
    + rewrite app_nth1 by (rewrite length_map, int_range_length; lia).
      rewrite (nth_indep _ 0 (linspace_temp min max n 0))
        by (rewrite length_map, int_range_length; lia).
      rewrite map_nth, int_range_nth by lia.
      rewrite linspace_temp_exact.
      replace (0 + Z.of_nat (Z.to_nat i))%Z with i by lia. reflexivity.
Qed.

(** X2: in exact arithmetic, for [n >= 2], the [n] numbers of [linspace]
    are evenly spaced from [min] to [max]: element [i] is
    [min + i*(max-min)/(n-1)] for every [i] from 0 to [n-1] (so also for
    the last one, which the code sets to [max] without computing it), the
    first is [min], and the step between neighbours is [(max-min)/(n-1)]. *)
Theorem linspace_evenly_spaced (fuel : nat) (min max : R) (n : Z) :
  int_minus_2_fits n ->
  (2 <= n)%Z ->
  (Z.to_nat (n - 1) <= fuel)%nat ->
  exists l,
    linspace fuel min max n = Ret l /\
    (forall i, (0 <= i <= n - 1)%Z ->
               nth (Z.to_nat i) l 0 = min + IZR i * (max - min) / IZR (n - 1)) /\
    nth 0 l 0 = min /\
    (forall i, (0 <= i < n - 1)%Z ->
               nth (Z.to_nat (i + 1)) l 0 - nth (Z.to_nat i) l 0 =
                 (max - min) / IZR (n - 1)).
Proof.
  intros _ Hn Hfuel.
  destruct (linspace_nth_exact fuel min max n Hn Hfuel) as (l & Hl & _ & Hnth).
  exists l. split; [exact Hl |].
  assert (Hd : IZR (n - 1) <> 0) by (apply not_0_IZR; lia).
  split; [exact Hnth | split].
  - pose proof (Hnth 0%Z ltac:(lia)) as H0. cbn [Z.to_nat] in H0.
    rewrite H0. field. exact Hd.
  - intros i Hi. rewrite !Hnth by lia. rewrite plus_IZR. field. exact Hd.
Qed.

Lemma linspace_evenly_spaced_witness :
  exists l,
    linspace 4 0 1 5 = Ret l /\
    (forall i, (0 <= i <= 5 - 1)%Z ->
               nth (Z.to_nat i) l 0 = 0 + IZR i * (1 - 0) / IZR (5 - 1)) /\
    nth 0 l 0 = 0 /\
    (forall i, (0 <= i < 5 - 1)%Z ->
               nth (Z.to_nat (i + 1)) l 0 - nth (Z.to_nat i) l 0 =
                 (1 - 0) / IZR (5 - 1)).
Proof.
  apply (linspace_evenly_spaced 4 0 1 5).
  - unfold int_minus_2_fits. lia.
  - lia.
  - simpl. lia.
Defined.

(** X3: in exact arithmetic, for [n >= 2] and [min <= max], the numbers of
    [linspace] never decrease along the vector and all lie between [min]
    and [max]; for [min < max] they increase strictly, so that no two are
    equal. *)
Theorem linspace_monotone (fuel : nat) (min max : R) (n : Z) :
  int_minus_2_fits n ->
  (2 <= n)%Z ->
  (Z.to_nat (n - 1) <= fuel)%nat ->
  min <= max ->
  exists l,
    linspace fuel min max n = Ret l /\
    (forall i j, (0 <= i <= j)%Z -> (j <= n - 1)%Z ->
                 min <= nth (Z.to_nat i) l 0 <= nth (Z.to_nat j) l 0 /\
                 nth (Z.to_nat j) l 0 <= max) /\
    (min < max ->
     forall i j, (0 <= i < j)%Z -> (j <= n - 1)%Z ->
                 nth (Z.to_nat i) l 0 < nth (Z.to_nat j) l 0).
Proof.
  intros _ Hn Hfuel Hle.
  destruct (linspace_nth_exact fuel min max n Hn Hfuel) as (l & Hl & _ & Hnth).
  exists l. split; [exact Hl |].
  assert (Hd : 0 < IZR (n - 1)) by (apply IZR_lt; lia).
  assert (Hstep : 0 <= (max - min) / IZR (n - 1)).
  { apply Rmult_le_pos; [lra | left; apply Rinv_0_lt_compat; exact Hd]. }
  assert (Hform : forall i : Z,
             min + IZR i * (max - min) / IZR (n - 1) =
             min + IZR i * ((max - min) / IZR (n - 1)))
    by (intros i; unfold Rdiv; ring).
  assert (Hfull : IZR (n - 1) * ((max - min) / IZR (n - 1)) = max - min)
    by (field; lra).
  split.
  - intros i j Hij Hj. rewrite !Hnth, !Hform by lia.
    assert (Hi0 : 0 <= IZR i) by (apply IZR_le; lia).
    assert (Hij' : IZR i <= IZR j) by (apply IZR_le; lia).
    assert (Hjn : IZR j <= IZR (n - 1)) by (apply IZR_le; lia).
    set (step := (max - min) / IZR (n - 1)) in *.
    repeat split; nra.
  - intros Hlt i j Hij Hj. rewrite !Hnth, !Hform by lia.
    assert (Hpos : 0 < (max - min) / IZR (n - 1)).
    { apply Rmult_lt_0_compat; [lra | apply Rinv_0_lt_compat; exact Hd]. }
    assert (Hij' : IZR i < IZR j) by (apply IZR_lt; lia).
    set (step := (max - min) / IZR (n - 1)) in *.
    nra.
Qed.

Lemma linspace_monotone_witness :
  exists l,
    linspace 4 0 1 5 = Ret l /\
    (forall i j, (0 <= i <= j)%Z -> (j <= 5 - 1)%Z ->
                 0 <= nth (Z.to_nat i) l 0 <= nth (Z.to_nat j) l 0 /\
                 nth (Z.to_nat j) l 0 <= 1) /\
    (0 < 1 ->
     forall i j, (0 <= i < j)%Z -> (j <= 5 - 1)%Z ->
                 nth (Z.to_nat i) l 0 < nth (Z.to_nat j) l 0).
Proof.
  apply (linspace_monotone 4 0 1 5).
  - unfold int_minus_2_fits. lia.
  - lia.
  - simpl. lia.
  - lra.
Defined.

End LinspaceExact.

(** * More on [try_mapping] *)

Section TryMappingMore.
Context {num : Type} `{DoubleOps num}.

Variable RAND_MAX : Z.
Variable transform_real_to_unit_cell : Point num -> option (Point num).
Variable dim : Z.

(** X4: when the mapping inverts the point it is given first, [try_mapping]
    returns [true] after this one call, with [p_unit] the result for [p]
    itself: no retry, no perturbation, and the random source is not
    touched.  The point need not even have [dim] coordinates. *)
Theorem first_attempt_success
    (p p_unit0 q : Point num) (g : rand_source) (fuel : nat) :
  (1 <= fuel)%nat ->
  transform_real_to_unit_cell p = Some q ->
  try_mapping RAND_MAX transform_real_to_unit_cell dim fuel p p_unit0 g =
    Ret {| mapping_done := true; count_try := 0; p_try := p; p_unit := q;
           gen := g; queried := [p] |}.
Proof.
  intros Hfuel Hq.
  destruct fuel as [| fuel]; [lia |].
  unfold try_mapping. cbn [while_not_done mapping_done].
  unfold attempt. cbn [p_try]. rewrite Hq. cbn [bind count_try gen queried app].
  destruct fuel; reflexivity.
Qed.

(** X5: how [try_mapping] uses the random source.  The handler calls
    [rand()] [dim] times after every failed attempt, the last one included:
    on return the generator has advanced by [dim * count_try] numbers,
    where [count_try] is the number of failed attempts (0 to 21), one less
    than the number of calls of the mapping on success and equal to it, 21,
    on failure.  On failure the final [p_try] is a twenty-first perturbed
    point, drawn but never handed to the mapping. *)
Theorem random_source_accounting
    (p p_unit0 : Point num) (g : rand_source) (fuel : nat) :
  length p = Z.to_nat dim ->
  (21 <= fuel)%nat ->
  exists s,
    try_mapping RAND_MAX transform_real_to_unit_cell dim fuel p p_unit0 g = Ret s /\
    draws (gen s) = draws g /\
    pos (gen s) = (pos g + Z.to_nat (count_try s) * Z.to_nat dim)%nat /\
    (0 <= count_try s <= 21)%Z /\
    Z.of_nat (length (queried s)) =
      (count_try s + (if mapping_done s then 1 else 0))%Z /\
    (mapping_done s = false ->
     count_try s = 21%Z /\
     p_try s = perturbed RAND_MAX (draws g) (pos g + 20 * Z.to_nat dim) p).
Proof.
  intros Hdim Hfuel.
  destruct (try_mapping_run RAND_MAX transform_real_to_unit_cell dim
              p p_unit0 g Hdim fuel Hfuel)
    as (n & Hn & _ & [(q & _ & Hr) | (-> & _ & Hr)]).
  - eexists. split; [exact Hr |].
    cbn [gen state_found advance draws pos count_try queried mapping_done].
    rewrite Nat2Z.id, length_map, length_seq.
    repeat split; (lia || discriminate).
  - eexists. split; [exact Hr |].
    cbn [gen state_after advance draws pos count_try queried mapping_done p_try query].
    rewrite Nat2Z.id, length_map, length_seq.
    repeat split; lia.
Qed.

End TryMappingMore.

Lemma first_attempt_success_witness :
  try_mapping (num := PrimFloat.float) 32767 (fun q => Some q) 2 1
    [dlit 1 2; dlit 1 2] [dconv 0; dconv 0] two_ends =
    Ret {| mapping_done := true; count_try := 0; p_try := [dlit 1 2; dlit 1 2];
           p_unit := [dlit 1 2; dlit 1 2]; gen := two_ends;
           queried := [[dlit 1 2; dlit 1 2]] |}.
Proof.
  apply (first_attempt_success 32767 (fun q => Some q) 2
           [dlit 1 2; dlit 1 2] [dconv 0; dconv 0] [dlit 1 2; dlit 1 2] two_ends 1).
  - lia.
  - reflexivity.
Defined.

Lemma random_source_accounting_witness :
  exists s,
    try_mapping (num := PrimFloat.float) 32767 never_inverts 2 21
      [dlit 1 2; dlit 1 2] [dconv 0; dconv 0] two_ends = Ret s /\
    draws (gen s) = draws two_ends /\
    pos (gen s) = (pos two_ends + Z.to_nat (count_try s) * Z.to_nat 2)%nat /\
    (0 <= count_try s <= 21)%Z /\
    Z.of_nat (length (queried s)) =
      (count_try s + (if mapping_done s then 1 else 0))%Z /\
    (mapping_done s = false ->
     count_try s = 21%Z /\
     p_try s = perturbed 32767 (draws two_ends) (pos two_ends + 20 * Z.to_nat 2)
                 [dlit 1 2; dlit 1 2]).
Proof.
  apply (random_source_accounting 32767 never_inverts 2
           [dlit 1 2; dlit 1 2] [dconv 0; dconv 0] two_ends 21).
  - reflexivity.
  - lia.
Defined.

Section TryMappingExact.
Local Open Scope R_scope.

(** X6: the point whose reference coordinates [try_mapping] returns.  On
    success [p_unit] is the mapping's result for the final [p_try], and
    every axis of this point is within 1e-4 of the same axis of [p] (in
    exact arithmetic, for a generator that keeps to [0 .. RAND_MAX]): the
    coordinates returned are those of [p] or of a point that close to it. *)
Theorem success_point_is_near
    (RAND_MAX : Z) (transform_real_to_unit_cell : Point R -> option (Point R))
    (dim : Z) (p p_unit0 : Point R) (g : rand_source) (fuel : nat) :
  (0 < RAND_MAX)%Z ->
  (forall n, (0 <= draws g n <= RAND_MAX)%Z) ->
  length p = Z.to_nat dim ->
  (21 <= fuel)%nat ->
  exists s,
    try_mapping RAND_MAX transform_real_to_unit_cell dim fuel p p_unit0 g = Ret s /\
    length (p_try s) = length p /\
    (forall i, (i < Z.to_nat dim)%nat ->
               Rabs (nth i (p_try s) 0 - nth i p 0) <= 1 / 10000) /\
    (mapping_done s = true ->
     transform_real_to_unit_cell (p_try s) = Some (p_unit s)).
Proof.
  intros HM Hdraws Hdim Hfuel.
  assert (Hnear : forall k i, (i < Z.to_nat dim)%nat ->
             Rabs (nth i (query RAND_MAX dim p g k) 0 - nth i p 0) <= 1 / 10000).
  { intros k i Hi. destruct k as [| k]; cbn [query].
    - rewrite Rminus_diag, Rabs_R0. lra.
    - rewrite perturbed_nth by lia. rewrite offset_exact. to_real.
      pose proof (fraction_range RAND_MAX _ HM
                    (Hdraws (pos g + k * Z.to_nat dim + i)%nat)) as Hu.
      apply Rabs_le. lra. }
  destruct (try_mapping_run RAND_MAX transform_real_to_unit_cell dim
              p p_unit0 g Hdim fuel Hfuel)
    as (n & Hn & _ & [(q & Hq & Hr) | (-> & _ & Hr)]).
  - eexists. split; [exact Hr |]. cbn [p_try p_unit state_found mapping_done].
    split; [apply query_length |]. split; [apply Hnear |].
    intros _. exact Hq.
  - eexists. split; [exact Hr |]. cbn [p_try p_unit state_after mapping_done].
    split; [apply query_length |]. split; [apply Hnear |].
    discriminate.
Qed.

(** A run that fails on [p] and succeeds on the first perturbed point. *)
Lemma first_retry_success
    (RAND_MAX : Z) (transform_real_to_unit_cell : Point R -> option (Point R))
    (dim : Z) (p p_unit0 q : Point R) (g : rand_source) (fuel : nat) :
  length p = Z.to_nat dim ->
  (2 <= fuel)%nat ->
  transform_real_to_unit_cell p = None ->
  transform_real_to_unit_cell (query RAND_MAX dim p g 1) = Some q ->
  try_mapping RAND_MAX transform_real_to_unit_cell dim fuel p p_unit0 g =
    Ret (state_found RAND_MAX dim p g 1 q).
Proof.
  intros Hdim Hfuel Hp Hq.
  destruct fuel as [| [| fuel]]; try lia.
  rewrite try_mapping_start.
  cbn [while_not_done mapping_done state_after].
  rewrite (attempt_fails RAND_MAX transform_real_to_unit_cell dim p p_unit0 g Hdim 0 Hp).
  cbn [bind Z.of_nat Pos.of_succ_nat Z.ltb Z.compare Pos.compare Pos.compare_cont].
  cbn [while_not_done mapping_done state_after].
  rewrite (attempt_succeeds RAND_MAX transform_real_to_unit_cell dim p p_unit0 g 1 q Hq).
  cbn [bind]. destruct fuel; reflexivity.
Qed.

Lemma success_point_is_near_witness :
  exists s,
    try_mapping (num := R) 32767 (inverts_off 1) 2 21 [1; 2] [0; 0] two_ends = Ret s /\
    mapping_done s = true /\
    count_try s = 1%Z /\
    p_try s <> [1; 2] /\
    length (p_try s) = length [1; 2] /\
    (forall i, (i < Z.to_nat 2)%nat ->
               Rabs (nth i (p_try s) 0 - nth i [1; 2] 0) <= 1 / 10000) /\
    (mapping_done s = true -> inverts_off 1 (p_try s) = Some (p_unit s)).
Proof.
  destruct (success_point_is_near 32767 (inverts_off 1) 2 [1; 2] [0; 0] two_ends 21)
    as (s & Hs & Hlen & Hnear & Hdone).
  - lia.
  - intros n. simpl. destruct (Nat.even n); lia.
  - reflexivity.
  - lia.
  - exists s.
    assert (Hx : 1 + 1 / 10000 * (-1 + 2 * (0 / 32767)) <> 1) by lra.
    assert (Hrun :
      try_mapping (num := R) 32767 (inverts_off 1) 2 21 [1; 2] [0; 0] two_ends =
        Ret (state_found 32767 2 [1; 2] two_ends 1
               (query 32767 2 [1; 2] two_ends 1))).
    { apply first_retry_success.
      - reflexivity.
      - lia.
      - cbn [inverts_off]. destruct (Req_dec_T 1 1) as [_ | Hne];
          [reflexivity | contradiction].
      - cbn [query perturbed two_ends draws pos Nat.add Nat.mul Nat.even inverts_off].
        rewrite !offset_exact. to_real.
        destruct (Req_dec_T (1 + 1 / 10000 * (-1 + 2 * (0 / 32767))) 1)
          as [Heq | _]; [contradiction | reflexivity]. }
    rewrite Hrun in Hs. injection Hs as Hs. subst s.
    split; [exact Hrun |].
    split; [reflexivity |].
    split; [reflexivity |].
    split; [| split; [exact Hlen | split; [exact Hnear | exact Hdone]]].
    cbn [p_try state_found query perturbed two_ends draws pos Nat.add Nat.mul Nat.even].
    rewrite !offset_exact. to_real.
    intros Heq. injection Heq as Heq _. contradiction.
Defined.

End TryMappingExact.

(** * More on [get_connected_indices] *)

Section AdjacencyMore.
Local Open Scope Z_scope.

Ltac each_node Hi :=
  repeat (destruct Hi as [-> | Hi]); try subst.

(** X7: the hand-written table is the flip of the top bit of the node
    number: for [dim] 2 or 3 and a node [i] of the cell, the lookup returns
    [i xor 2^(dim-1)], which is never [i] itself and lies [2^(dim-1)] away
    from it (2 in a quadrilateral, 4 in a hexahedron). *)
Theorem vertical_neighbour_flips_top_bit (dim i : Z) :
  dim = 2 \/ dim = 3 ->
  0 <= i <= 2 ^ dim - 1 ->
  get_connected_indices dim i = [Z.lxor i (2 ^ (dim - 1))] /\
  Z.lxor i (2 ^ (dim - 1)) <> i /\
  Z.abs (Z.lxor i (2 ^ (dim - 1)) - i) = 2 ^ (dim - 1).
Proof.
  intros Hd Hi.
  assert (Hv : valid_node dim i = true).
  { unfold valid_node. destruct Hd as [-> | ->];
      cbn [Z.eqb Pos.eqb orb andb]; apply andb_true_iff; split;
      [apply Z.leb_le | apply Z.leb_le | apply Z.leb_le | apply Z.leb_le]; lia. }
  apply valid_node_iff in Hv.
  destruct Hv as [[-> Hn] | [-> Hn]]; each_node Hn;
    (split; [reflexivity | split; [discriminate | reflexivity]]).
Qed.

Lemma vertical_neighbour_flips_top_bit_witness :
  get_connected_indices 3 6 = [Z.lxor 6 (2 ^ (3 - 1))] /\
  Z.lxor 6 (2 ^ (3 - 1)) <> 6 /\
  Z.abs (Z.lxor 6 (2 ^ (3 - 1)) - 6) = 2 ^ (3 - 1).
Proof.
  apply (vertical_neighbour_flips_top_bit 3 6); [right; reflexivity | simpl; lia].
Defined.

(** X8: the other branch of the body (the one the local flag would select
    if it were set) lists, for a node [i] of the cell, exactly the nodes
    that differ from [i] in one bit: [j] is listed for [i] if and only if
    [j = i xor 2^k] for some axis [k < dim].  So the relation is symmetric,
    every node has [dim] neighbours, none of them itself, and the vertical
    neighbour is one of them. *)
Theorem full_adjacency_is_bit_flips (dim i : Z) :
  dim = 2 \/ dim = 3 ->
  0 <= i <= 2 ^ dim - 1 ->
  (forall j, In j (connected_indices true dim i) <->
             exists k, 0 <= k < dim /\ j = Z.lxor i (2 ^ k)) /\
  (forall j, In j (connected_indices true dim i) ->
             In i (connected_indices true dim j)) /\
  length (connected_indices true dim i) = Z.to_nat dim /\
  ~ In i (connected_indices true dim i) /\
  (forall j, In j (get_connected_indices dim i) ->
             In j (connected_indices true dim i)).
Proof.
  intros Hd Hi.
  assert (Hv : valid_node dim i = true).
  { unfold valid_node. destruct Hd as [-> | ->];
      cbn [Z.eqb Pos.eqb orb andb]; apply andb_true_iff; split;
      [apply Z.leb_le | apply Z.leb_le | apply Z.leb_le | apply Z.leb_le]; lia. }
  apply valid_node_iff in Hv.
  split; [| split; [| split; [| split]]].
  - intros j. split.
    + intros Hin.
      destruct Hv as [[-> Hn] | [-> Hn]]; each_node Hn;
        cbn in Hin; repeat (destruct Hin as [<- | Hin]); try contradiction;
        first [ exists 0; split; [lia | reflexivity]
              | exists 1; split; [lia | reflexivity]
              | exists 2; split; [lia | reflexivity] ].
    + intros (k & Hk & ->).
      destruct Hv as [[-> Hn] | [-> Hn]]; each_node Hn.
      all: assert (Hk' : k = 0 \/ k = 1 \/ k = 2) by lia.
      all: destruct Hk' as [-> | [-> | ->]]; try lia; cbn; tauto.
  - intros j Hin.
    destruct Hv as [[-> Hn] | [-> Hn]]; each_node Hn;
      cbn in Hin; repeat (destruct Hin as [<- | Hin]); try contradiction;
      cbn; tauto.
  - destruct Hv as [[-> Hn] | [-> Hn]]; each_node Hn; reflexivity.
  - intros Hin.
    destruct Hv as [[-> Hn] | [-> Hn]]; each_node Hn;
      cbn in Hin; repeat (destruct Hin as [Hin | Hin]); try discriminate;
      contradiction.
  - intros j Hin.
    destruct Hv as [[-> Hn] | [-> Hn]]; each_node Hn;
      cbn in Hin; repeat (destruct Hin as [<- | Hin]); try contradiction;
      cbn; tauto.
Qed.

Lemma full_adjacency_is_bit_flips_witness :
  (forall j, In j (connected_indices true 3 5) <->
             exists k, 0 <= k < 3 /\ j = Z.lxor 5 (2 ^ k)) /\
  (forall j, In j (connected_indices true 3 5) ->
             In 5 (connected_indices true 3 j)) /\
  length (connected_indices true 3 5) = Z.to_nat 3 /\
  ~ In 5 (connected_indices true 3 5) /\
  (forall j, In j (get_connected_indices 3 5) ->
             In j (connected_indices true 3 5)).
Proof.
  apply (full_adjacency_is_bit_flips 3 5); [right; reflexivity | simpl; lia].
Defined.

End AdjacencyMore.

(** * More on [triangle_area] *)

Section ProjectedAreaShape.
Context {num : Type} `{DoubleOps num}.
Local Open Scope dbl_scope.

(** X9: with [project = true], [triangle_area] reads the coordinates 0 and
    1 of each point and nothing else: on points of [dim] coordinates it
    returns a value for every [dim >= 2], the same whatever the further
    coordinates are, and for [dim < 2] it reaches a read of a coordinate
    the points do not have. *)
Theorem projected_area_by_dimension (dim : nat) (A B C : Point num) :
  length A = dim -> length B = dim -> length C = dim ->
  triangle_area A B C true =
    if (2 <=? dim)%nat then
      let d := dconv 0 in
      let a0 := nth 0 A d in let a1 := nth 1 A d in
      let b0 := nth 0 B d in let b1 := nth 1 B d in
      let c0 := nth 0 C d in let c1 := nth 1 C d in
      Ret (dabs (dlit 1 2 * (a0 * (b1 - c1) + b0 * (c1 - a1) + c0 * (a1 - b1))))
    else OutOfRange.
Proof.
  intros HA HB HC.
  destruct dim as [| [| dim]].
  - destruct A; [reflexivity | discriminate].
  - destruct A as [| a0 [| ? ?]]; try discriminate. reflexivity.
  - destruct A as [| a0 [| a1 ra]]; try discriminate.
    destruct B as [| b0 [| b1 rb]]; try discriminate.
    destruct C as [| c0 [| c1 rc]]; try discriminate.
    reflexivity.
Qed.

End ProjectedAreaShape.

Lemma projected_area_by_dimension_witness :
  triangle_area (num := PrimFloat.float) [dconv 1] [dconv 2] [dconv 3] true = OutOfRange.
Proof.
  apply (projected_area_by_dimension 1 [dconv 1] [dconv 2] [dconv 3]); reflexivity.
Defined.

Section TrueAreaExact.
Local Open Scope R_scope.

Lemma true_area_minors (x1 y1 z1 x2 y2 z2 x3 y3 z3 : R) (r1 r2 r3 : list R) :
  triangle_area (num := R) (x1 :: y1 :: z1 :: r1) (x2 :: y2 :: z2 :: r2)
                (x3 :: y3 :: z3 :: r3) false =
    Ret (1 / 2 * sqrt (minor_xy x1 y1 x2 y2 x3 y3 * minor_xy x1 y1 x2 y2 x3 y3 +
                       minor_xy x1 z1 x2 z2 x3 z3 * minor_xy x1 z1 x2 z2 x3 z3 +
                       minor_xy y1 z1 y2 z2 y3 z3 * minor_xy y1 z1 y2 z2 y3 z3)).
Proof. reflexivity. Qed.

Lemma sum_three_sq_nonneg (a b c : R) : 0 <= a * a + b * b + c * c.
Proof.
  pose proof (sq_nonneg a). pose proof (sq_nonneg b). pose proof (sq_nonneg c). lra.
Qed.

Lemma sq_opp (a b : R) : a = - b -> a * a = b * b.
Proof. intros ->. ring. Qed.

(** X10: in exact arithmetic, on points of three coordinates or more, the
    value [triangle_area] returns with [project = false] is half the
    length of the cross product of the edge vectors [B - A] and [C - A]
    (the true area of the triangle in space); it is non-negative and the
    same for all six orders of the three points. *)
Theorem true_area_cross_product
    (x1 y1 z1 x2 y2 z2 x3 y3 z3 : R) (r1 r2 r3 : list R) :
  let A := x1 :: y1 :: z1 :: r1 in
  let B := x2 :: y2 :: z2 :: r2 in
  let C := x3 :: y3 :: z3 :: r3 in
  let cx := (y2 - y1) * (z3 - z1) - (z2 - z1) * (y3 - y1) in
  let cy := (z2 - z1) * (x3 - x1) - (x2 - x1) * (z3 - z1) in
  let cz := (x2 - x1) * (y3 - y1) - (y2 - y1) * (x3 - x1) in
  let area := 1 / 2 * sqrt (cx * cx + cy * cy + cz * cz) in
  triangle_area (num := R) A B C false = Ret area /\
  0 <= area /\
  triangle_area (num := R) B C A false = Ret area /\
  triangle_area (num := R) C A B false = Ret area /\
  triangle_area (num := R) B A C false = Ret area /\
  triangle_area (num := R) A C B false = Ret area /\
  triangle_area (num := R) C B A false = Ret area.
Proof.
  intros A B C cx cy cz area. subst A B C area.
  rewrite !true_area_minors.
  split; [| split].
  - do 3 f_equal. unfold minor_xy. subst cx cy cz. ring.
  - pose proof (sqrt_pos (cx * cx + cy * cy + cz * cz)). lra.
  - repeat split; do 3 f_equal; unfold minor_xy; subst cx cy cz; ring.
Qed.

(** X11: in exact arithmetic the projected area of a triangle is never
    larger than its true area and never negative; the two are equal
    exactly when the two minors that involve [z] vanish, and in particular
    when the three points share their [z]. *)
Theorem projection_never_larger
    (x1 y1 z1 x2 y2 z2 x3 y3 z3 : R) (r1 r2 r3 : list R) :
  let A := x1 :: y1 :: z1 :: r1 in
  let B := x2 :: y2 :: z2 :: r2 in
  let C := x3 :: y3 :: z3 :: r3 in
  exists t p,
    triangle_area (num := R) A B C false = Ret t /\
    triangle_area (num := R) A B C true = Ret p /\
    0 <= p <= t /\
    (p = t <-> minor_xy x1 z1 x2 z2 x3 z3 = 0 /\ minor_xy y1 z1 y2 z2 y3 z3 = 0) /\
    (z1 = z2 /\ z1 = z3 -> p = t).
Proof.
  intros A B C. subst A B C.
  rewrite true_area_minors, projected_area_minor.
  eexists. eexists. split; [reflexivity |]. split; [reflexivity |].
  remember (minor_xy x1 y1 x2 y2 x3 y3) as m eqn:Em.
  remember (minor_xy x1 z1 x2 z2 x3 z3) as b eqn:Eb.
  remember (minor_xy y1 z1 y2 z2 y3 z3) as c eqn:Ec.
  pose proof (sq_nonneg m) as Nm. pose proof (sq_nonneg b) as Nb.
  pose proof (sq_nonneg c) as Nc.
  pose proof (Rabs_pos m) as Pm.
  pose proof (abs_le_sqrt m (m * m + b * b + c * c)) as Hle.
  assert (Hiff : 1 / 2 * Rabs m = 1 / 2 * sqrt (m * m + b * b + c * c) <->
                 b = 0 /\ c = 0).
  { split.
    - intros Heq.
      assert (E : sqrt (m * m + b * b + c * c) = Rabs m) by lra.
      apply sqrt_eq_abs in E; [| lra]. apply sum_sq_zero. lra.
    - intros [-> ->].
      assert (E : sqrt (m * m + 0 * 0 + 0 * 0) = Rabs m)
        by (apply sqrt_eq_abs; lra).
      rewrite E. reflexivity. }
  split; [split; lra |]. split; [exact Hiff |].
  intros [H2 H3]. apply Hiff. subst z2 z3 b c. unfold minor_xy. split; ring.
Qed.

Lemma projection_never_larger_witness :
  exists t p,
    triangle_area (num := R) [0; 0; 1] [3; 0; 1] [0; 4; 1] false = Ret t /\
    triangle_area (num := R) [0; 0; 1] [3; 0; 1] [0; 4; 1] true = Ret p /\
    0 <= p <= t /\
    (p = t <-> minor_xy 0 1 3 1 0 1 = 0 /\ minor_xy 0 1 0 1 4 1 = 0) /\
    (1 = 1 /\ 1 = 1 -> p = t).
Proof.
  exact (projection_never_larger 0 0 1 3 0 1 0 4 1 [] [] []).
Defined.

Lemma area_shift_scale
    (x1 y1 z1 x2 y2 z2 x3 y3 z3 s dx dy dz area : R) (project : bool) :
  triangle_area (num := R) [x1; y1; z1] [x2; y2; z2] [x3; y3; z3] project = Ret area ->
  triangle_area (num := R)
    [s * x1 + dx; s * y1 + dy; s * z1 + dz]
    [s * x2 + dx; s * y2 + dy; s * z2 + dz]
    [s * x3 + dx; s * y3 + dy; s * z3 + dz] project = Ret (s * s * area).
Proof.
  assert (Hm : forall a1 b1 a2 b2 a3 b3 da db,
             minor_xy (s * a1 + da) (s * b1 + db) (s * a2 + da) (s * b2 + db)
                      (s * a3 + da) (s * b3 + db) =
             s * s * minor_xy a1 b1 a2 b2 a3 b3)
    by (intros; unfold minor_xy; ring).
  pose proof (sq_nonneg s) as Ns.
  destruct project.
  - rewrite !projected_area_minor. intros Heq. injection Heq as <-.
    rewrite Hm, Rabs_mult, (Rabs_right (s * s)) by lra. f_equal. ring.
  - rewrite !true_area_minors. intros Heq. injection Heq as <-.
    rewrite !Hm.
    set (m := minor_xy x1 y1 x2 y2 x3 y3).
    set (b := minor_xy x1 z1 x2 z2 x3 z3).
    set (c := minor_xy y1 z1 y2 z2 y3 z3).
    replace (s * s * m * (s * s * m) + s * s * b * (s * s * b) + s * s * c * (s * s * c))
      with ((s * s) * (s * s) * (m * m + b * b + c * c)) by ring.
    rewrite sqrt_mult, sqrt_square by
      first [apply sum_three_sq_nonneg | lra | apply Rmult_le_pos; lra].
    f_equal. ring.
Qed.

(** X12: in exact arithmetic, moving the three points by one and the same
    vector leaves both areas (projected and true) unchanged, and scaling
    all coordinates by [s] multiplies both by [s^2]. *)
Theorem area_under_shift_and_scale
    (x1 y1 z1 x2 y2 z2 x3 y3 z3 s dx dy dz : R) (project : bool) :
  exists area,
    triangle_area (num := R) [x1; y1; z1] [x2; y2; z2] [x3; y3; z3] project
      = Ret area /\
    triangle_area (num := R)
      [s * x1 + dx; s * y1 + dy; s * z1 + dz]
      [s * x2 + dx; s * y2 + dy; s * z2 + dz]
      [s * x3 + dx; s * y3 + dy; s * z3 + dz] project = Ret (s * s * area).
Proof.
  destruct (triangle_area (num := R) [x1; y1; z1] [x2; y2; z2] [x3; y3; z3] project)
    as [area | |] eqn:Harea.
  - exists area. split; [reflexivity |].
    apply area_shift_scale. exact Harea.
  - destruct project; discriminate.
  - destruct project; discriminate.
Qed.

End TrueAreaExact.

Section WeightMore.
Local Open Scope R_scope.

Lemma cancel_factor (c a b : R) : c <> 0 -> (c * a) / (c * b) = a / b.
Proof.
  intros Hc. unfold Rdiv. rewrite Rinv_mult.
  replace (c * a * (/ c * / b)) with ((c * / c) * (a * / b)) by ring.
  rewrite Rinv_r by exact Hc. ring.
Qed.

Lemma sqrt_scaled (s q : R) : 0 <= q -> sqrt (s * s * q) = Rabs s * sqrt q.
Proof.
  intros Hq. rewrite sqrt_mult by (try apply sq_nonneg; exact Hq).
  f_equal. apply sqrt_Rsqr_abs.
Qed.

Lemma quad_weight_exact (x1 y1 z1 x2 y2 z2 x3 y3 z3 x4 y4 z4 : R) :
  recharge_weight (num := R) 3
    (face_of [[x1; y1; z1]; [x2; y2; z2]; [x3; y3; z3]; [x4; y4; z4]]) =
    Ret ((1 / 2 * Rabs (minor_xy x1 y1 x2 y2 x4 y4) +
          1 / 2 * Rabs (minor_xy x1 y1 x4 y4 x3 y3)) /
         (1 / 2 * sqrt (minor_xy x1 y1 x2 y2 x4 y4 * minor_xy x1 y1 x2 y2 x4 y4 +
                        minor_xy x1 z1 x2 z2 x4 z4 * minor_xy x1 z1 x2 z2 x4 z4 +
                        minor_xy y1 z1 y2 z2 y4 z4 * minor_xy y1 z1 y2 z2 y4 z4) +
          1 / 2 * sqrt (minor_xy x1 y1 x4 y4 x3 y3 * minor_xy x1 y1 x4 y4 x3 y3 +
                        minor_xy x1 z1 x4 z4 x3 z3 * minor_xy x1 z1 x4 z4 x3 z3 +
                        minor_xy y1 z1 y4 z4 y3 z3 * minor_xy y1 z1 y4 z4 y3 z3))).
Proof.
  unfold recharge_weight, A_real, A_proj. cbn [Z.eqb Pos.eqb face_of nth].
  rewrite !true_area_exact, !projected_area_minor. reflexivity.
Qed.

(** X13: in exact arithmetic, for a face of positive true size, the weight
    lies in [0, 1], and it is 0 exactly when the face has no horizontal
    extent: the two vertices of an edge share their x; both triangles of a
    quadrilateral have projected area zero (a vertical face). *)
Theorem weight_zero_iff_no_projection :
  (forall x1 y1 x2 y2 : R,
      0 < distance (num := R) [x1; y1] [x2; y2] ->
      exists w,
        recharge_weight (num := R) 2 (face_of [[x1; y1]; [x2; y2]]) = Ret w /\
        0 <= w <= 1 /\ (w = 0 <-> x1 = x2)) /\
  (forall x1 y1 z1 x2 y2 z2 x3 y3 z3 x4 y4 z4 a_real : R,
      let v1 := [x1; y1; z1] in
      let v2 := [x2; y2; z2] in
      let v3 := [x3; y3; z3] in
      let v4 := [x4; y4; z4] in
      A_real (num := R) v1 v2 v3 v4 = Ret a_real ->
      0 < a_real ->
      exists w,
        recharge_weight (num := R) 3 (face_of [v1; v2; v3; v4]) = Ret w /\
        0 <= w <= 1 /\
        (w = 0 <-> minor_xy x1 y1 x2 y2 x4 y4 = 0 /\ minor_xy x1 y1 x4 y4 x3 y3 = 0)).
Proof.
  split.
  - intros x1 y1 x2 y2 HD.
    rewrite edge_weight_exact. eexists. split; [reflexivity |].
    rewrite distance_exact in *.
    pose proof (sq_nonneg (y1 - y2)) as Hy.
    assert (Hxx : (x2 - x1) * (x2 - x1) = (x1 - x2) * (x1 - x2)) by ring.
    assert (Hle : Rabs (x2 - x1) <=
                  sqrt ((x1 - x2) * (x1 - x2) + (y1 - y2) * (y1 - y2)))
      by (apply abs_le_sqrt; lra).
    pose proof (Rabs_pos (x2 - x1)) as Hp.
    set (len := sqrt ((x1 - x2) * (x1 - x2) + (y1 - y2) * (y1 - y2))) in *.
    assert (Hinv : 0 < / len) by (apply Rinv_0_lt_compat; exact HD).
    split; [split |].
    + apply Rmult_le_pos; lra.
    + apply (Rmult_le_reg_r len); [exact HD |].
      unfold Rdiv. rewrite Rmult_assoc, Rinv_l by lra. lra.
    + split.
      * intros Hw. apply Rmult_integral in Hw. destruct Hw as [Hw | Hw]; [| lra].
        destruct (Req_dec x1 x2) as [Heq | Hne]; [exact Heq |].
        assert (0 < Rabs (x2 - x1)) by (apply Rabs_pos_lt; lra). lra.
      * intros ->. rewrite Rminus_diag, Rabs_R0. unfold Rdiv. ring.
  - intros x1 y1 z1 x2 y2 z2 x3 y3 z3 x4 y4 z4 a_real v1 v2 v3 v4 Hreal Hr.
    subst v1 v2 v3 v4. rewrite quad_weight_exact.
    unfold A_real in Hreal. rewrite !true_area_exact in Hreal.
    cbn [bind] in Hreal. to_real. injection Hreal as Hreal.
    eexists. split; [reflexivity |].
    remember (minor_xy x1 y1 x2 y2 x4 y4) as m1 eqn:Em1.
    remember (minor_xy x1 z1 x2 z2 x4 z4) as b1 eqn:Eb1.
    remember (minor_xy y1 z1 y2 z2 y4 z4) as c1 eqn:Ec1.
    remember (minor_xy x1 y1 x4 y4 x3 y3) as m2 eqn:Em2.
    remember (minor_xy x1 z1 x4 z4 x3 z3) as b2 eqn:Eb2.
    remember (minor_xy y1 z1 y4 z4 y3 z3) as c2 eqn:Ec2.
    pose proof (sq_nonneg b1) as Nb1. pose proof (sq_nonneg c1) as Nc1.
    pose proof (sq_nonneg b2) as Nb2. pose proof (sq_nonneg c2) as Nc2.
    pose proof (abs_le_sqrt m1 (m1 * m1 + b1 * b1 + c1 * c1)) as Hle1.
    pose proof (abs_le_sqrt m2 (m2 * m2 + b2 * b2 + c2 * c2)) as Hle2.
    pose proof (Rabs_pos m1) as P1. pose proof (Rabs_pos m2) as P2.
    rewrite Hreal.
    assert (Hinv : 0 < / a_real) by (apply Rinv_0_lt_compat; exact Hr).
    split; [split |].
    + apply Rmult_le_pos; lra.
    + apply (Rmult_le_reg_r a_real); [exact Hr |].
      unfold Rdiv. rewrite Rmult_assoc, Rinv_l by lra. lra.
    + split.
      * intros Hw. apply Rmult_integral in Hw. destruct Hw as [Hw | Hw]; [| lra].
        assert (H1 : Rabs m1 = 0) by lra. assert (H2 : Rabs m2 = 0) by lra.
        split.
        -- destruct (Req_dec m1 0) as [E | E]; [exact E |].
           apply Rabs_pos_lt in E. lra.
        -- destruct (Req_dec m2 0) as [E | E]; [exact E |].
           apply Rabs_pos_lt in E. lra.
      * intros [-> ->]. rewrite Rabs_R0. unfold Rdiv. ring.
Qed.

(** X14: in exact arithmetic the weight depends on the orientation of the
    face only: moving all its vertices by one vector and scaling all
    coordinates by a factor [s <> 0] leave it unchanged, for edges and for
    quadrilaterals (degenerate ones included). *)
Theorem weight_ignores_position_and_size :
  (forall x1 y1 x2 y2 s dx dy : R,
      s <> 0 ->
      recharge_weight (num := R) 2
        (face_of [[s * x1 + dx; s * y1 + dy]; [s * x2 + dx; s * y2 + dy]]) =
      recharge_weight (num := R) 2 (face_of [[x1; y1]; [x2; y2]])) /\
  (forall x1 y1 z1 x2 y2 z2 x3 y3 z3 x4 y4 z4 s dx dy dz : R,
      s <> 0 ->
      recharge_weight (num := R) 3
        (face_of [[s * x1 + dx; s * y1 + dy; s * z1 + dz];
                  [s * x2 + dx; s * y2 + dy; s * z2 + dz];
                  [s * x3 + dx; s * y3 + dy; s * z3 + dz];
                  [s * x4 + dx; s * y4 + dy; s * z4 + dz]]) =
      recharge_weight (num := R) 3
        (face_of [[x1; y1; z1]; [x2; y2; z2]; [x3; y3; z3]; [x4; y4; z4]])).
Proof.
  split.
  - intros x1 y1 x2 y2 s dx dy Hs.
    rewrite !edge_weight_exact, !distance_exact. f_equal.
    replace (s * x2 + dx - (s * x1 + dx)) with (s * (x2 - x1)) by ring.
    replace ((s * x1 + dx - (s * x2 + dx)) * (s * x1 + dx - (s * x2 + dx)) +
             (s * y1 + dy - (s * y2 + dy)) * (s * y1 + dy - (s * y2 + dy)))
      with (s * s * ((x1 - x2) * (x1 - x2) + (y1 - y2) * (y1 - y2))) by ring.
    pose proof (sq_nonneg (x1 - x2)). pose proof (sq_nonneg (y1 - y2)).
    rewrite sqrt_scaled, Rabs_mult by lra.
    apply cancel_factor. apply Rabs_no_R0. exact Hs.
  - intros x1 y1 z1 x2 y2 z2 x3 y3 z3 x4 y4 z4 s dx dy dz Hs.
    rewrite !quad_weight_exact. f_equal.
    assert (Hm : forall a1 b1 a2 b2 a3 b3 da db,
               minor_xy (s * a1 + da) (s * b1 + db) (s * a2 + da) (s * b2 + db)
                        (s * a3 + da) (s * b3 + db) =
               s * s * minor_xy a1 b1 a2 b2 a3 b3)
      by (intros; unfold minor_xy; ring).
    rewrite !Hm.
    set (m1 := minor_xy x1 y1 x2 y2 x4 y4).
    set (b1 := minor_xy x1 z1 x2 z2 x4 z4).
    set (c1 := minor_xy y1 z1 y2 z2 y4 z4).
    set (m2 := minor_xy x1 y1 x4 y4 x3 y3).
    set (b2 := minor_xy x1 z1 x4 z4 x3 z3).
    set (c2 := minor_xy y1 z1 y4 z4 y3 z3).
    pose proof (sq_nonneg s) as Ns.
    assert (Hss : s * s <> 0) by (apply Rmult_integral_contrapositive; split; exact Hs).
    assert (Hsq : forall m b c,
               sqrt (s * s * m * (s * s * m) + s * s * b * (s * s * b) +
                     s * s * c * (s * s * c)) =
               s * s * sqrt (m * m + b * b + c * c)).
    { intros m b c.
      replace (s * s * m * (s * s * m) + s * s * b * (s * s * b) + s * s * c * (s * s * c))
        with ((s * s) * (s * s) * (m * m + b * b + c * c)) by ring.
      rewrite sqrt_scaled by apply sum_three_sq_nonneg.
      rewrite (Rabs_right (s * s)) by lra. reflexivity. }
    rewrite !Hsq, (Rabs_mult (s * s) m1), (Rabs_mult (s * s) m2).
    rewrite !(Rabs_right (s * s)) by lra.
    replace (1 / 2 * (s * s * Rabs m1) + 1 / 2 * (s * s * Rabs m2))
      with (s * s * (1 / 2 * Rabs m1 + 1 / 2 * Rabs m2)) by ring.
    replace (1 / 2 * (s * s * sqrt (m1 * m1 + b1 * b1 + c1 * c1)) +
             1 / 2 * (s * s * sqrt (m2 * m2 + b2 * b2 + c2 * c2)))
      with (s * s * (1 / 2 * sqrt (m1 * m1 + b1 * b1 + c1 * c1) +
                     1 / 2 * sqrt (m2 * m2 + b2 * b2 + c2 * c2))) by ring.
    apply cancel_factor. exact Hss.
Qed.

Lemma weight_zero_iff_no_projection_witness :
  (exists w,
      recharge_weight (num := R) 2 (face_of [[0; 0]; [0; 4]]) = Ret w /\
      0 <= w <= 1 /\ (w = 0 <-> 0 = 0)) /\
  (exists w,
      recharge_weight (num := R) 3
        (face_of [[0; 0; 0]; [1; 0; 0]; [0; 0; 1]; [1; 0; 1]]) = Ret w /\
      0 <= w <= 1 /\
      (w = 0 <-> minor_xy 0 0 1 0 1 0 = 0 /\ minor_xy 0 0 1 0 0 0 = 0)).
Proof.
  split.
  - apply (proj1 weight_zero_iff_no_projection 0 0 0 4).
    rewrite distance_exact. apply sqrt_lt_R0. lra.
  - eapply (proj2 weight_zero_iff_no_projection 0 0 0 1 0 0 0 0 1 1 0 1).
    + reflexivity.
    + to_real.
      assert (Hs : forall x, 0 < x -> 0 < 1 / 2 * sqrt x)
        by (intros x Hx; apply sqrt_lt_R0 in Hx; lra).
      apply Rplus_lt_0_compat; apply Hs; lra.
Defined.

Lemma weight_ignores_position_and_size_witness :
  recharge_weight (num := R) 2
    (face_of [[2 * 0 + 1; 2 * 0 + 1]; [2 * 3 + 1; 2 * 4 + 1]]) =
  recharge_weight (num := R) 2 (face_of [[0; 0]; [3; 4]]).
Proof.
  apply (proj1 weight_ignores_position_and_size 0 0 3 4 2 1 1). lra.
Defined.

End WeightMore.

(** * Properties of [Print_Mesh_DofHandler] *)

Section KeepFirst.
Context {P : Type}.

Lemma existsb_key (k : Z) (keys : list Z) :
  existsb (Z.eqb k) keys = true <-> In k keys.
Proof.
  rewrite existsb_exists. split.
  - intros (x & Hx & Heq). apply Z.eqb_eq in Heq. subst x. exact Hx.
  - intros Hin. exists k. split; [exact Hin | apply Z.eqb_refl].
Qed.

Lemma keep_first_keys (kept : list (Z * P)) (v : Z * P) (k : Z) :
  In k (map fst (keep_first kept v)) <-> In k (map fst kept) \/ k = fst v.
Proof.
  unfold keep_first.
  destruct (existsb (Z.eqb (fst v)) (map fst kept)) eqn:He.
  - apply existsb_key in He. split; [auto |].
    intros [Hin | ->]; assumption.
  - rewrite map_app, in_app_iff. cbn. intuition.
Qed.

Lemma keep_first_nodup (kept : list (Z * P)) (v : Z * P) :
  NoDup (map fst kept) -> NoDup (map fst (keep_first kept v)).
Proof.
  intros Hnd. unfold keep_first.
  destruct (existsb (Z.eqb (fst v)) (map fst kept)) eqn:He; [exact Hnd |].
  rewrite map_app. cbn.
  apply NoDup_app; [exact Hnd | constructor; [intros [] | constructor] |].
  intros k Hin [<- | []].
  apply existsb_key in Hin. congruence.
Qed.

Lemma first_visits_from_keys (vs : list (Z * P)) :
  forall kept k,
    In k (map fst (fold_left keep_first vs kept)) <->
    In k (map fst kept) \/ In k (map fst vs).
Proof.
  induction vs as [| v vs IH]; intros kept k; cbn [fold_left map].
  - cbn. tauto.
  - rewrite IH, keep_first_keys. cbn. intuition.
Qed.

Lemma first_visits_from_nodup (vs : list (Z * P)) :
  forall kept,
    NoDup (map fst kept) -> NoDup (map fst (fold_left keep_first vs kept)).
Proof.
  induction vs as [| v vs IH]; intros kept Hnd; cbn [fold_left]; [exact Hnd |].
  apply IH, keep_first_nodup, Hnd.
Qed.

Lemma first_visits_from_origin (vs : list (Z * P)) :
  forall kept k nd,
    In (k, nd) (fold_left keep_first vs kept) ->
    In (k, nd) kept \/
    (~ In k (map fst kept) /\
     exists before after,
       vs = before ++ (k, nd) :: after /\ ~ In k (map fst before)).
Proof.
  induction vs as [| v vs IH]; intros kept k nd Hin; cbn [fold_left] in Hin.
  - left. exact Hin.
  - apply IH in Hin. unfold keep_first in Hin.
    destruct (existsb (Z.eqb (fst v)) (map fst kept)) eqn:He.
    + apply existsb_key in He.
      destruct Hin as [Hin | (Hnot & before & after & -> & Hb)]; [left; exact Hin |].
      right. split; [exact Hnot |].
      exists (v :: before), after. split; [reflexivity |].
      cbn. intros [Heq | Hk]; [| exact (Hb Hk)].
      apply Hnot. rewrite <- Heq. exact He.
    + assert (Hv : ~ In (fst v) (map fst kept)).
      { intros Hk. apply existsb_key in Hk. congruence. }
      destruct Hin as [Hin | (Hnot & before & after & -> & Hb)].
      * apply in_app_iff in Hin. destruct Hin as [Hin | [Heq | []]]; [left; exact Hin |].
        subst v. cbn [fst] in Hv.
        right. split; [exact Hv |].
        exists [], vs. split; [reflexivity | intros []].
      * rewrite map_app, in_app_iff in Hnot. cbn in Hnot.
        right. split; [tauto |].
        exists (v :: before), after. split; [reflexivity |].
        cbn. intros [Heq | Hk]; [| exact (Hb Hk)].
        apply Hnot. right. left. exact Heq.
Qed.

End KeepFirst.

Section PrintMeshFacts.
Context {num : Type} `{DoubleOps num}.

Variable dim : nat.
Variable base_dofs_per_cell : nat.
Variable component_to_system_index : nat -> nat -> nat.

Local Abbreviation dir_loop := (dir_loop component_to_system_index).
Local Abbreviation visit_idof := (visit_idof dim component_to_system_index).
Local Abbreviation idof_loop := (idof_loop dim component_to_system_index).
Local Abbreviation visit_cell :=
  (visit_cell dim base_dofs_per_cell component_to_system_index).
Local Abbreviation cell_loop :=
  (cell_loop dim base_dofs_per_cell component_to_system_index).
Local Abbreviation Print_Mesh_DofHandler :=
  (Print_Mesh_DofHandler dim base_dofs_per_cell component_to_system_index).
Local Abbreviation visit_key := (visit_key dim component_to_system_index).
Local Abbreviation visits_of_cell :=
  (visits_of_cell dim base_dofs_per_cell component_to_system_index).
Local Abbreviation visits :=
  (visits dim base_dofs_per_cell component_to_system_index).
Local Abbreviation readable :=
  (readable dim base_dofs_per_cell component_to_system_index).

Lemma vec_get_nth {A : Type} (v : list A) (i : nat) (d : A) :
  (i < length v)%nat -> vec_get v i = Ret (nth i v d).
Proof.
  intros Hi. unfold vec_get.
  rewrite (nth_error_nth' v d Hi). reflexivity.
Qed.

Lemma vec_set_app {A : Type} (v1 v2 : list A) (y x : A) :
  vec_set (v1 ++ y :: v2) (length v1) x = Ret (v1 ++ x :: v2).
Proof.
  induction v1 as [| z v1 IH]; simpl; trivial.
  rewrite IH. reflexivity.
Qed.

(** The loop over [dir], entered at axis [length done_d] with the axes
    before it written, copies the remaining axes of the point and the
    numbers of their degrees of freedom. *)
Lemma dir_loop_from (cell : cell_data) (idof : nat) (rest : Point num) :
  forall (pre : Point num) (done_d old_d : list Z) (done_n old_n : Point num),
    quadrature_point cell idof = pre ++ rest ->
    length pre = length done_d ->
    length done_n = length done_d ->
    length old_d = length rest ->
    length old_n = length rest ->
    (forall d, (d < length done_d + length rest)%nat ->
               (component_to_system_index d idof < length (get_dof_indices cell))%nat) ->
    dir_loop (length rest) (length done_d) cell idof
             (done_d ++ old_d) (done_n ++ old_n) =
      Ret (done_d ++
             map (fun d => to_int (nth (component_to_system_index d idof)
                                       (get_dof_indices cell) 0%Z))
                 (seq (length done_d) (length rest)),
           done_n ++ rest).
Proof.
  induction rest as [| x rest IH];
    intros pre done_d old_d done_n old_n Hqp Hpre Hdn Hod Hon Hidx.
  - destruct old_d; [| discriminate]. destruct old_n; [| discriminate].
    reflexivity.
  - destruct old_d as [| od old_d]; [discriminate |].
    destruct old_n as [| on old_n]; [discriminate |].
    cbn [length] in *.
    cbn [dir_loop].
    rewrite (vec_get_nth _ _ 0%Z) by (apply Hidx; lia). cbn [bind].
    rewrite vec_set_app. cbn [bind].
    rewrite Hqp, <- Hpre, coord_app. cbn [bind].
    rewrite Hpre, <- Hdn, set_coord_app. cbn [bind].
    specialize (IH (pre ++ [x])
                   (done_d ++ [to_int (nth (component_to_system_index (length done_d) idof)
                                           (get_dof_indices cell) 0%Z)])
                   old_d (done_n ++ [x]) old_n).
    rewrite !length_app in IH. cbn [length] in IH.
    rewrite !Nat.add_1_r, <- !app_assoc in IH. cbn [app] in IH.
    rewrite Hdn. rewrite IH; try lia.
    + cbn [seq map]. reflexivity.
    + rewrite Hqp. reflexivity.
    + intros d Hd. apply Hidx. lia.
Qed.

Lemma visit_idof_closed (cell : cell_data) (idof : nat) (s : print_state) :
  (1 <= dim)%nat ->
  length (quadrature_point cell idof) = dim ->
  (forall dir, (dir < dim)%nat ->
     (component_to_system_index dir idof < length (get_dof_indices cell))%nat) ->
  visit_idof cell idof s =
    Ret (record_visit s (visit_key cell idof, quadrature_point cell idof)).
Proof.
  intros Hdim Hqp Hidx. unfold visit_idof.
  pose proof (dir_loop_from cell idof (quadrature_point cell idof)
                [] [] (repeat 0%Z dim) [] (repeat (dconv 0) dim)) as Hloop.
  cbn [app length Nat.add] in Hloop. rewrite Hqp in Hloop.
  rewrite Hloop; try reflexivity; try (rewrite repeat_length; reflexivity);
    try exact Hidx.
  - cbn [bind].
    rewrite (vec_get_nth _ _ 0%Z) by (rewrite length_map, length_seq; lia).
    cbn [bind].
    rewrite (nth_indep _ 0%Z
               (to_int (nth (component_to_system_index 0 idof)
                            (get_dof_indices cell) 0%Z)))
      by (rewrite length_map, length_seq; lia).
    rewrite (map_nth (fun d => to_int (nth (component_to_system_index d idof)
                                          (get_dof_indices cell) 0%Z))),
      seq_nth by lia.
    cbn [Nat.add]. unfold record_visit, visit_key. cbn [fst snd].
    destruct (ZMap.find _ (Points s)); reflexivity.
Qed.

Lemma idof_loop_closed (cell : cell_data) (n : nat) :
  (1 <= dim)%nat ->
  readable cell ->
  forall idof s,
    (idof + n <= base_dofs_per_cell)%nat ->
    idof_loop n idof cell s =
      Ret (fold_left record_visit
             (map (fun i => (visit_key cell i, quadrature_point cell i)) (seq idof n))
             s).
Proof.
  intros Hdim Hread. induction n as [| n IH]; intros idof s Hn; [reflexivity |].
  cbn [idof_loop seq map fold_left].
  destruct (Hread idof ltac:(lia)) as [Hqp Hidx].
  rewrite visit_idof_closed by assumption. cbn [bind].
  apply IH. lia.
Qed.

Lemma cell_loop_closed (cells : list cell_data) :
  (1 <= dim)%nat ->
  (forall cell, In cell cells -> is_locally_owned cell = true -> readable cell) ->
  forall s, cell_loop cells s = Ret (fold_left record_visit (visits cells) s).
Proof.
  intros Hdim. induction cells as [| cell cells IH]; intros Hread s; [reflexivity |].
  cbn [cell_loop]. unfold visit_cell, visits.
  cbn [filter].
  destruct (is_locally_owned cell) eqn:Hown.
  - rewrite idof_loop_closed; [| exact Hdim | apply Hread; [left; reflexivity | exact Hown] | lia].
    cbn [bind flat_map]. rewrite fold_left_app.
    apply IH. intros c Hc. apply Hread. right. exact Hc.
  - cbn [bind]. apply IH. intros c Hc. apply Hread. right. exact Hc.
Qed.

Lemma holds_step (s : print_state) (kept : list (Z * Point num)) (v : Z * Point num) :
  holds s kept -> holds (record_visit s v) (keep_first kept v).
Proof.
  intros (Hcnt & Hcard & Hfind). destruct v as [key node].
  unfold record_visit, keep_first. cbn [fst snd].
  destruct (ZMap.find key (Points s)) as [[c0 nd0] |] eqn:Hk.
  - apply Hfind in Hk. destruct Hk as [_ Hk].
    assert (He : existsb (Z.eqb key) (map fst kept) = true).
    { apply existsb_key. apply nth_error_In in Hk.
      apply (in_map fst) in Hk. exact Hk. }
    rewrite He. split; [exact Hcnt | split; [exact Hcard | exact Hfind]].
  - assert (Hnot : ~ In key (map fst kept)).
    { intros Hin. apply in_map_iff in Hin. destruct Hin as ([k' nd'] & Hk' & Hin).
      cbn in Hk'. subst k'. apply In_nth_error in Hin. destruct Hin as [c Hc].
      assert (Hsome : ZMap.find key (Points s) = Some (Z.of_nat c, nd')).
      { apply Hfind. rewrite Nat2Z.id. split; [lia | exact Hc]. }
      congruence. }
    assert (He : existsb (Z.eqb key) (map fst kept) = false).
    { destruct (existsb (Z.eqb key) (map fst kept)) eqn:He; trivial.
      apply existsb_key in He. contradiction. }
    rewrite He. unfold holds. cbn [Points p_cnt].
    split; [rewrite length_app; cbn [length]; lia |]. split.
    + rewrite length_app. cbn [length]. rewrite Nat.add_1_r, <- Hcard.
      apply (ZMapProps.cardinal_2 (x := key) (e := (p_cnt s, node))).
      * apply ZMapFacts.not_find_in_iff. exact Hk.
      * intros y. reflexivity.
    + intros k c nd.
      destruct (Z.eq_dec key k) as [<- | Hne].
      * rewrite ZMapFacts.add_eq_o by reflexivity. split.
        -- intros Heq. injection Heq as <- <-. rewrite Hcnt, Nat2Z.id.
           split; [lia |].
           rewrite nth_error_app2, Nat.sub_diag by lia. reflexivity.
        -- intros [Hc Hnth].
           destruct (Nat.lt_ge_cases (Z.to_nat c) (length kept)) as [Hlt | Hge].
           ++ rewrite nth_error_app1 in Hnth by exact Hlt.
              exfalso. apply Hnot. apply nth_error_In in Hnth.
              apply (in_map fst) in Hnth. exact Hnth.
           ++ rewrite nth_error_app2 in Hnth by exact Hge.
              destruct (Z.to_nat c - length kept)%nat as [| r] eqn:Hr.
              ** cbn in Hnth. injection Hnth as <-. do 2 f_equal. lia.
              ** cbn in Hnth. destruct r; discriminate.
      * rewrite ZMapFacts.add_neq_o by exact Hne. rewrite Hfind. split.
        -- intros [Hc Hnth]. split; [exact Hc |].
           rewrite nth_error_app1; [exact Hnth |].
           apply nth_error_Some. congruence.
        -- intros [Hc Hnth]. split; [exact Hc |].
           destruct (Nat.lt_ge_cases (Z.to_nat c) (length kept)) as [Hlt | Hge].
           ++ rewrite nth_error_app1 in Hnth by exact Hlt. exact Hnth.
           ++ rewrite nth_error_app2 in Hnth by exact Hge.
              destruct (Z.to_nat c - length kept)%nat as [| r].
              ** cbn in Hnth. injection Hnth as Hkey _. contradiction.
              ** cbn in Hnth. destruct r; discriminate.
Qed.

Lemma holds_fold (vs : list (Z * Point num)) :
  forall s kept,
    holds s kept ->
    holds (fold_left record_visit vs s) (fold_left keep_first vs kept).
Proof.
  induction vs as [| v vs IH]; intros s kept Hh; cbn [fold_left]; [exact Hh |].
  apply IH, holds_step, Hh.
Qed.

Lemma holds_start :
  holds {| Points := ZMap.empty (Z * Point num); p_cnt := 0%Z |} [].
Proof.
  split; [reflexivity |]. split; [apply ZMapProps.cardinal_1, ZMap.empty_1 |].
  intros k c nd. cbn [Points]. rewrite ZMapFacts.empty_o. split; [discriminate |].
  intros [_ Hn]. destruct (Z.to_nat c); discriminate.
Qed.

Lemma print_mesh_holds (cells : list cell_data) :
  (1 <= dim)%nat ->
  (forall cell, In cell cells -> is_locally_owned cell = true -> readable cell) ->
  exists s,
    Print_Mesh_DofHandler cells = Ret s /\
    holds s (first_visits (visits cells)).
Proof.
  intros Hdim Hread. unfold Print_Mesh_DofHandler.
  rewrite cell_loop_closed by assumption.
  eexists. split; [reflexivity |].
  apply holds_fold, holds_start.
Qed.

(** X15: the points [Print_Mesh_DofHandler] collects are numbered without
    gaps.  When the function ends, [p_cnt] is the number of entries of
    [Points], every entry carries a counter from 0 to [p_cnt - 1], every
    such counter is carried by an entry, and no two entries carry the
    same. *)
Theorem points_are_numbered (cells : list cell_data) :
  (1 <= dim)%nat ->
  (forall cell, In cell cells -> is_locally_owned cell = true -> readable cell) ->
  exists s,
    Print_Mesh_DofHandler cells = Ret s /\
    p_cnt s = Z.of_nat (ZMap.cardinal (Points s)) /\
    (forall k c nd, ZMap.find k (Points s) = Some (c, nd) -> (0 <= c < p_cnt s)%Z) /\
    (forall c, (0 <= c < p_cnt s)%Z ->
               exists k nd, ZMap.find k (Points s) = Some (c, nd)) /\
    (forall k k' c nd nd',
        ZMap.find k (Points s) = Some (c, nd) ->
        ZMap.find k' (Points s) = Some (c, nd') -> k = k').
Proof.
  intros Hdim Hread.
  destruct (print_mesh_holds cells Hdim Hread) as (s & Hs & Hcnt & Hcard & Hfind).
  exists s. split; [exact Hs |].
  split; [rewrite Hcard; exact Hcnt |]. split; [| split].
  - intros k c nd Hk. apply Hfind in Hk. destruct Hk as [Hc Hnth].
    assert (Hlt : (Z.to_nat c < length (first_visits (visits cells)))%nat)
      by (apply nth_error_Some; congruence).
    lia.
  - intros c Hc.
    destruct (nth_error (first_visits (visits cells)) (Z.to_nat c))
      as [[k nd] |] eqn:Hnth.
    + exists k, nd. apply Hfind. split; [lia | exact Hnth].
    + apply nth_error_None in Hnth. lia.
  - intros k k' c nd nd' Hk Hk'.
    apply Hfind in Hk, Hk'. destruct Hk as [_ Hk]. destruct Hk' as [_ Hk'].
    congruence.
Qed.

(** X16: points are told apart by the degree of freedom of their last
    coordinate, and the first visit wins.  A key is in [Points] exactly
    when some locally owned cell visits it; the point stored under it is
    the one of its first visit, later visits of the same key change
    nothing; and the counters follow the order of the first visits. *)
Theorem first_visit_is_kept (cells : list cell_data) :
  (1 <= dim)%nat ->
  (forall cell, In cell cells -> is_locally_owned cell = true -> readable cell) ->
  exists s,
    Print_Mesh_DofHandler cells = Ret s /\
    (forall k, ZMap.In k (Points s) <-> In k (map fst (visits cells))) /\
    (forall k c nd,
        ZMap.find k (Points s) = Some (c, nd) ->
        exists before after,
          visits cells = before ++ (k, nd) :: after /\
          ~ In k (map fst before)) /\
    (forall k c nd,
        ZMap.find k (Points s) = Some (c, nd) <->
        (0 <= c)%Z /\
        nth_error (first_visits (visits cells)) (Z.to_nat c) = Some (k, nd)).
Proof.
  intros Hdim Hread.
  destruct (print_mesh_holds cells Hdim Hread) as (s & Hs & Hcnt & Hcard & Hfind).
  exists s. split; [exact Hs |]. split; [| split; [| exact Hfind]].
  - intros k.
    assert (Hkeys : In k (map fst (first_visits (visits cells))) <->
                    In k (map fst (visits cells))).
    { unfold first_visits. rewrite first_visits_from_keys. cbn. tauto. }
    rewrite <- Hkeys. split.
    + intros Hin. apply ZMapFacts.in_find_iff in Hin.
      destruct (ZMap.find k (Points s)) as [[c nd] |] eqn:Hk; [| congruence].
      apply Hfind in Hk. destruct Hk as [_ Hk].
      apply nth_error_In in Hk. apply (in_map fst) in Hk. exact Hk.
    + intros Hin.
      apply in_map_iff in Hin. destruct Hin as ([k' nd] & Hk' & Hin).
      cbn in Hk'. subst k'. apply In_nth_error in Hin. destruct Hin as [c Hc].
      apply ZMapFacts.in_find_iff.
      assert (Hsome : ZMap.find k (Points s) = Some (Z.of_nat c, nd)).
      { apply Hfind. rewrite Nat2Z.id. split; [lia | exact Hc]. }
      congruence.
  - intros k c nd Hk. apply Hfind in Hk. destruct Hk as [_ Hk].
    apply nth_error_In in Hk.
    apply first_visits_from_origin in Hk.
    destruct Hk as [[] | (_ & before & after & Hv & Hb)].
    exists before, after. split; assumption.
Qed.

(** X17: cells that are not locally owned leave no trace: the function
    ends in the same state as on the owned cells alone, whatever the other
    cells hold, and with no owned cell at all [Points] stays empty and
    [p_cnt] stays 0. *)
Theorem unowned_cells_are_skipped (cells : list cell_data) :
  Print_Mesh_DofHandler cells =
    Print_Mesh_DofHandler (filter is_locally_owned cells) /\
  ((forall cell, In cell cells -> is_locally_owned cell = false) ->
   Print_Mesh_DofHandler cells =
     Ret {| Points := ZMap.empty (Z * Point num); p_cnt := 0%Z |}).
Proof.
  assert (Hskip : forall cs s,
             cell_loop cs s = cell_loop (filter is_locally_owned cs) s).
  { induction cs as [| cell cs IH]; intros s; [reflexivity |].
    cbn [cell_loop filter]. unfold visit_cell.
    destruct (is_locally_owned cell) eqn:Hown.
    - cbn [cell_loop]. unfold visit_cell. rewrite Hown.
      destruct (idof_loop base_dofs_per_cell 0 cell s); cbn [bind]; trivial.
    - cbn [bind]. apply IH. }
  split; [apply Hskip |].
  intros Hnone. unfold Print_Mesh_DofHandler. rewrite Hskip.
  replace (filter is_locally_owned cells) with (@nil (cell_data (num := num)));
    [reflexivity |].
  symmetry. induction cells as [| cell cells IH]; [reflexivity |].
  cbn [filter]. rewrite (Hnone cell (or_introl eq_refl)).
  apply IH. intros c Hc. apply Hnone. right. exact Hc.
Qed.

End PrintMeshFacts.

Lemma sample_cells_readable :
  forall cell, In cell [left_cell; ghost_cell; right_cell] ->
               is_locally_owned cell = true ->
               readable 2 4 sample_index cell.
Proof.
  intros cell Hin _ idof Hidof.
  assert (Hi : (idof = 0 \/ idof = 1 \/ idof = 2 \/ idof = 3)%nat) by lia.
  destruct Hin as [<- | [<- | [<- | []]]];
    destruct Hi as [-> | [-> | [-> | ->]]];
    (split; [reflexivity | intros dir Hdir; unfold sample_index; cbn; lia]).
Qed.

Lemma points_are_numbered_witness :
  exists s,
    Print_Mesh_DofHandler 2 4 sample_index [left_cell; ghost_cell; right_cell] = Ret s /\
    p_cnt s = Z.of_nat (ZMap.cardinal (Points s)) /\
    (forall k c nd, ZMap.find k (Points s) = Some (c, nd) -> (0 <= c < p_cnt s)%Z) /\
    (forall c, (0 <= c < p_cnt s)%Z ->
               exists k nd, ZMap.find k (Points s) = Some (c, nd)) /\
    (forall k k' c nd nd',
        ZMap.find k (Points s) = Some (c, nd) ->
        ZMap.find k' (Points s) = Some (c, nd') -> k = k').
Proof.
  apply (points_are_numbered 2 4 sample_index [left_cell; ghost_cell; right_cell]).
  - lia.
  - exact sample_cells_readable.
Defined.

Lemma first_visit_is_kept_witness :
  exists s,
    Print_Mesh_DofHandler 2 4 sample_index [left_cell; ghost_cell; right_cell] = Ret s /\
    (forall k, ZMap.In k (Points s) <->
               In k (map fst (visits 2 4 sample_index
                                [left_cell; ghost_cell; right_cell]))) /\
    (forall k c nd,
        ZMap.find k (Points s) = Some (c, nd) ->
        exists before after,
          visits 2 4 sample_index [left_cell; ghost_cell; right_cell] =
            before ++ (k, nd) :: after /\
          ~ In k (map fst before)) /\
    (forall k c nd,
        ZMap.find k (Points s) = Some (c, nd) <->
        (0 <= c)%Z /\
        nth_error (first_visits (visits 2 4 sample_index
                                   [left_cell; ghost_cell; right_cell]))
                  (Z.to_nat c) = Some (k, nd)).
Proof.
  apply (first_visit_is_kept 2 4 sample_index [left_cell; ghost_cell; right_cell]).
  - lia.
  - exact sample_cells_readable.
Defined.

Lemma unowned_cells_are_skipped_witness :
  Print_Mesh_DofHandler 2 4 sample_index [ghost_cell] =
    Ret {| Points := ZMap.empty (Z * Point PrimFloat.float); p_cnt := 0%Z |}.
Proof.
  apply (proj2 (unowned_cells_are_skipped 2 4 sample_index [ghost_cell])).
  intros cell [<- | []]. reflexivity.
Defined.

(** * More runs in binary64 *)

Section MoreRuns.
Import PrimFloat.

(** [floor] on some numbers of every kind. *)
Example float_floor_values :
  map float_floor [0.5; 1; 2.5; -0.5; -2.5; 4503599627370495.5; 1e20; infinity]%float
    = [0; 1; 2; -1; -3; 4503599627370495; 1e20; infinity]%float.
Proof. vm_compute. reflexivity. Qed.

(** Five numbers from 0 to 1. *)
Example linspace_0_1_5 :
  linspace 4 0%float 1%float 5 = Ret [0; 0.25; 0.5; 0.75; 1]%float.
Proof. vm_compute. reflexivity. Qed.

(** [n = 0] and a negative [n] give the one number [max]. *)
Example linspace_without_points :
  linspace 0 3%float 4%float 0 = Ret [4]%float /\
  linspace 0 3%float 4%float (-5) = Ret [4]%float.
Proof. vm_compute. split; reflexivity. Qed.

(** The two owned sample cells have six nodes between them; the nodes of
    the shared edge (keys 3 and 7) keep the counters 1 and 3 they got in the
    left cell, the cell of the other process adds nothing. *)
Example sample_mesh_points :
  match Print_Mesh_DofHandler 2 4 sample_index [left_cell; ghost_cell; right_cell] with
  | Ret s =>
      (p_cnt s,
       map (fun k => ZMap.find k (Points s)) [1; 3; 5; 7; 9; 11; 13]%Z)
  | _ => (0%Z, [])
  end =
  (6%Z, [Some (0%Z, [0; 0]%float); Some (1%Z, [1; 0]%float);
         Some (2%Z, [0; 1]%float); Some (3%Z, [1; 1]%float);
         Some (4%Z, [2; 0]%float); Some (5%Z, [2; 1]%float); None]).
Proof. vm_compute. reflexivity. Qed.

End MoreRuns.
